(** * docs/generate_type_index.py: the type index generator

    A shallow embedding of the script that scans the [*.rs] files of the
    repository for [struct] and [enum] declarations, rejects duplicated
    names and renders [docs/TYPE_INDEX.md].

    Python [str] values are lists of characters; a character is a code
    point below 256 ([ascii]).  The file system is a list of entries, each
    a relative path with what [read_text] gives for it. *)

From Stdlib Require Import List Ascii String Arith Bool Lia DecimalString.
From Stdlib Require Import Permutation Sorted.
Import ListNotations.

Local Open Scope list_scope.

(** ** Strings *)

Definition str := list ascii.

Definition chars (s : string) : str := list_ascii_of_string s.

Definition code (c : ascii) : nat := nat_of_ascii c.

(** [str.isspace] for one character, which is also the class [\s] of
    [re] on [str] patterns: tab, line feed, vertical tab, form feed,
    carriage return, the separators 0x1c to 0x1f, space, NEL and the
    no-break space. *)
Definition isspace (c : ascii) : bool :=
  let n := code c in
  ((9 <=? n) && (n <=? 13)) || ((28 <=? n) && (n <=? 32))
  || (n =? 133) || (n =? 160).

(** [[A-Z]] *)
Definition isupper (c : ascii) : bool :=
  let n := code c in (65 <=? n) && (n <=? 90).

(** [[a-z]], used to state the case-sensitivity property. *)
Definition islower (c : ascii) : bool :=
  let n := code c in (97 <=? n) && (n <=? 122).

(** [[A-Za-z0-9_]] *)
Definition isident (c : ascii) : bool :=
  let n := code c in
  ((65 <=? n) && (n <=? 90)) || ((97 <=? n) && (n <=? 122))
  || ((48 <=? n) && (n <=? 57)) || (n =? 95).

(** [[^)]] *)
Definition notrparen (c : ascii) : bool := negb (Ascii.eqb c ")"%char).

(** [s.startswith(w)], giving what follows the prefix. *)
Fixpoint strip_prefix (w s : str) : option str :=
  match w, s with
  | [], _ => Some s
  | a :: w', b :: s' => if Ascii.eqb a b then strip_prefix w' s' else None
  | _ :: _, [] => None
  end.

Definition startswith (s w : str) : bool :=
  match strip_prefix w s with Some _ => true | None => false end.

(** The longest prefix of characters in a class, and what follows it. *)
Fixpoint takeWhile (p : ascii -> bool) (s : str) : str :=
  match s with
  | c :: r => if p c then c :: takeWhile p r else []
  | [] => []
  end.

Fixpoint dropWhile (p : ascii -> bool) (s : str) : str :=
  match s with
  | c :: r => if p c then dropWhile p r else s
  | [] => []
  end.

(** [s.lstrip()] *)
Definition lstrip (s : str) : str := dropWhile isspace s.

(** ** The regular expression

    [re] is a backtracking matcher: it tries the alternatives in a fixed
    priority order and reports the first complete match.  A matcher is
    modelled by the list of all its successes, in that order: the
    captured value and the rest of the input. *)

Definition matcher (A : Type) : Type := str -> list (A * str).

Definition ret {A} (a : A) : matcher A := fun s => [(a, s)].

Definition bind {A B} (m : matcher A) (k : A -> matcher B) : matcher B :=
  fun s => flat_map (fun ar => k (fst ar) (snd ar)) (m s).

(** A literal word. *)
Definition lit (w : str) : matcher str :=
  fun s => match strip_prefix w s with
           | Some r => [(w, r)]
           | None => []
           end.

(** One character of a class. *)
Definition cls (p : ascii -> bool) : matcher ascii :=
  fun s => match s with
           | c :: r => if p c then [(c, r)] else []
           | [] => []
           end.

(** [p*], greedy: the longest run first, the empty run last. *)
Fixpoint star (p : ascii -> bool) (s : str) : list (str * str) :=
  match s with
  | c :: r =>
      if p c
      then map (fun mr => (c :: fst mr, snd mr)) (star p r) ++ [([], s)]
      else [([], s)]
  | [] => [([], [])]
  end.

(** [p+], greedy. *)
Definition plus (p : ascii -> bool) : matcher str :=
  fun s => match s with
           | c :: r =>
               if p c
               then map (fun mr => (c :: fst mr, snd mr)) (star p r)
               else []
           | [] => []
           end.

(** [(m)?], greedy: the group first, skipping it last. *)
Definition opt {A} (m : matcher A) : matcher (option A) :=
  fun s => map (fun ar => (Some (fst ar), snd ar)) (m s) ++ [(None, s)].

(** [m1|m2] *)
Definition alt {A} (m1 m2 : matcher A) : matcher A :=
  fun s => m1 s ++ m2 s.

(** The parenthesized scope: an opening parenthesis, any characters
    but a closing parenthesis, a closing parenthesis. *)
Definition scope : matcher str :=
  bind (lit (chars "(")) (fun l =>
  bind (star notrparen) (fun inner =>
  bind (lit (chars ")")) (fun r =>
  ret (l ++ inner ++ r)))).

(** Group 1 of [PATTERN]: [pub], the optional scope, white space. *)
Definition visibility : matcher str :=
  bind (lit (chars "pub")) (fun p =>
  bind (opt scope) (fun sc =>
  bind (plus isspace) (fun ws =>
  ret (p ++ match sc with Some t => t | None => [] end ++ ws)))).

(** The groups of a match: [group(1)] (or [None]), [group(2)], [group(3)]. *)
Record groups : Type := Groups {
  group1 : option str;
  group2 : str;
  group3 : str
}.

(** [PATTERN]: anchored at the line start, optional white space, the
    optional group 1 (the visibility), group 2 ([struct] or [enum]), white
    space, and group 3: one character of [[A-Z]] and then the longest run
    of [[A-Za-z0-9_]] (a greedy star whose shorter runs are the later
    alternatives). *)
Definition PATTERN : matcher groups :=
  bind (star isspace) (fun _ =>
  bind (opt visibility) (fun g1 =>
  bind (alt (lit (chars "struct")) (lit (chars "enum"))) (fun g2 =>
  bind (plus isspace) (fun _ =>
  bind (cls isupper) (fun c =>
  bind (star isident) (fun t =>
  ret (Groups g1 g2 (c :: t)))))))).

(** [PATTERN.match(line)]: the first success, if any. *)
Definition PATTERN_match (line : str) : option groups :=
  match PATTERN line with
  | (g, _) :: _ => Some g
  | [] => None
  end.

(** ** Comparison of strings and paths

    Python compares sequences lexicographically: the first position where
    the two differ decides, and a proper prefix is smaller.  A [str] is
    compared by code points, a path by its parts. *)

Section Lex.
Context {A : Type} (eqb ltb : A -> A -> bool).

Fixpoint lex_eqb (x y : list A) : bool :=
  match x, y with
  | [], [] => true
  | a :: x', b :: y' => eqb a b && lex_eqb x' y'
  | _, _ => false
  end.

Fixpoint lex_ltb (x y : list A) : bool :=
  match x, y with
  | [], [] => false
  | [], _ :: _ => true
  | _ :: _, [] => false
  | a :: x', b :: y' => if eqb a b then lex_ltb x' y' else ltb a b
  end.
End Lex.

Definition char_ltb (a b : ascii) : bool := code a <? code b.

Definition str_eqb : str -> str -> bool := lex_eqb Ascii.eqb.
Definition str_ltb : str -> str -> bool := lex_ltb Ascii.eqb char_ltb.

(** A path is the list of its parts ([path.parts]). *)
Definition path := list str.

Definition path_ltb : path -> path -> bool := lex_ltb str_eqb str_ltb.

(** ** Sorting

    [sorted] and [list.sort] are stable and compare keys with [<] only.
    The model is the stable insertion sort: an element goes in front of
    the first one whose key is not smaller than its own. *)

Section Sort.
Context {A K : Type} (key : A -> K) (ltb : K -> K -> bool).

Fixpoint insert (x : A) (l : list A) : list A :=
  match l with
  | [] => [x]
  | y :: l' => if ltb (key y) (key x) then y :: insert x l' else x :: l
  end.

Definition sort_by (l : list A) : list A := fold_right insert [] l.
End Sort.

(** ** Formatting *)

(** [sep.join(l)] *)
Fixpoint join (sep : str) (l : list str) : str :=
  match l with
  | [] => []
  | [x] => x
  | x :: rest => x ++ sep ++ join sep rest
  end.

(** The decimal digits of a number, as an f-string prints an [int]. *)
Definition str_of_nat (n : nat) : str :=
  chars (DecimalString.NilEmpty.string_of_uint (Nat.to_uint n)).

(** [str(p)] and [p.as_posix()] of a POSIX path given by its parts; the
    path without parts prints as a dot. *)
Definition as_posix (p : path) : str :=
  match p with
  | [] => chars "."
  | _ => join (chars "/") p
  end.

(** ** Exceptions *)

Inductive exn : Type :=
| UnicodeDecodeError
| OSError (msg : str)
| ValueError
| SystemExit (status : nat).

Inductive result (A : Type) : Type :=
| Ok (a : A)
| Raise (e : exn).

Arguments Ok {A} a.
Arguments Raise {A} e.

(** The exit status of the process for the result of [main]: an
    exception that is not caught ends the process with status 1. *)
Definition exit_status {A} (r : result A) : nat :=
  match r with
  | Ok _ => 0
  | Raise (SystemExit n) => n
  | Raise _ => 1
  end.

(** ** The file system

    A file is its path and what [path.read_text()] does: the decoded text
    or an exception.  A tree is the list of the files below the root, with
    paths relative to it, in the order in which the file system happens to
    list them. *)

Record file : Type := File {
  f_path : path;
  f_read : result str
}.

(** [s.endswith(w)] *)
Definition endswith (s w : str) : bool := startswith (rev s) (rev w).

(** The name of a file matches the glob [*.rs]. *)
Definition is_rs (p : path) : bool :=
  match rev p with
  | name :: _ => endswith name (chars ".rs")
  | [] => false
  end.

(** [root.rglob("*.rs")]: the matching files, with absolute paths. *)
Definition rglob_rs (root : path) (tree : list file) : list file :=
  map (fun f => File (root ++ f_path f) (f_read f))
      (filter (fun f => is_rs (f_path f)) tree).

(** [p.relative_to(root)] *)
Fixpoint relative_to (p root : path) : result path :=
  match root, p with
  | [], _ => Ok p
  | r :: root', a :: p' =>
      if str_eqb r a then relative_to p' root' else Raise ValueError
  | _ :: _, [] => Raise ValueError
  end.

(** ** Lines *)

(** The line boundaries of [str.splitlines] below code point 256. *)
Definition is_linebreak (c : ascii) : bool :=
  let n := code c in
  ((10 <=? n) && (n <=? 13)) || ((28 <=? n) && (n <=? 30)) || (n =? 133).

(** [text.splitlines()]: [cur] holds the current line, reversed.  A
    carriage return followed by a line feed is one boundary, and a text
    that ends with a boundary has no empty last line. *)
Fixpoint splitlines_from (cur : str) (s : str) : list str :=
  match s with
  | [] => match cur with [] => [] | _ => [rev cur] end
  | c :: s' =>
      if is_linebreak c then
        rev cur ::
        match s' with
        | d :: s'' =>
            if (code c =? 13) && (code d =? 10)
            then splitlines_from [] s''
            else splitlines_from [] s'
        | [] => []
        end
      else splitlines_from (c :: cur) s'
  end.

Definition splitlines (text : str) : list str := splitlines_from [] text.

(** ** The scanner *)

(** The tuple [(name, kind, path, idx)]. *)
Record decl : Type := Decl {
  d_name : str;
  d_kind : str;
  d_path : path;
  d_line : nat
}.

(** The dict [seen], in insertion order. *)
Definition seen_t := list (str * list (path * nat)).

(** [seen.setdefault(name, []).append(loc)] *)
Fixpoint setdefault_append (name : str) (loc : path * nat) (seen : seen_t)
  : seen_t :=
  match seen with
  | [] => [(name, [loc])]
  | (n, locs) :: rest =>
      if str_eqb n name then (n, locs ++ [loc]) :: rest
      else (n, locs) :: setdefault_append name loc rest
  end.

(** The body of the loop over the lines, without the state: the record
    that the line gives, if any. *)
Definition scan_line (p : path) (idx : nat) (line : str) : option decl :=
  let stripped := lstrip line in
  if startswith stripped (chars "//") || startswith stripped (chars "/*")
  then None
  else match PATTERN_match line with
       | None => None
       | Some m => Some (Decl (group3 m) (group2 m) p idx)
       end.

(** The state of the scan: [types] and [seen]. *)
Definition scan_state : Type := list decl * seen_t.

(** [for idx, line in enumerate(lines, start=idx)]: a record is
    appended to [types] and its place to the entry of its name in
    [seen]. *)
Fixpoint scan_lines (p : path) (idx : nat) (lines : list str)
  (st : scan_state) : scan_state :=
  match lines with
  | [] => st
  | line :: rest =>
      scan_lines p (S idx) rest
        match scan_line p idx line with
        | Some d =>
            (fst st ++ [d], setdefault_append (d_name d) (p, idx) (snd st))
        | None => st
        end
  end.

Definition IGNORE_DIRS : list str :=
  [chars ".git"; chars "target"; chars "node_modules"].

Definition should_skip (p : path) : bool :=
  existsb (fun part => existsb (str_eqb part) IGNORE_DIRS) p.

(** [for path in files]: the loop over the sorted paths. *)
Fixpoint scan_files (files : list file) (st : scan_state)
  : result scan_state :=
  match files with
  | [] => Ok st
  | f :: rest =>
      if should_skip (f_path f) then scan_files rest st
      else match f_read f with
           | Raise UnicodeDecodeError => scan_files rest st
           | Raise e => Raise e
           | Ok text =>
               scan_files rest
                 (scan_lines (f_path f) 1 (splitlines text) st)
           end
  end.

(** ** Effects

    A run prints lines on the two streams and writes a file.  A
    computation is the trace of what it did, in order, with its result; an
    exception ends it.  [WriteText p content] stands for a call
    [p.write_text(content)] that returned, [WriteFailed p content] for one
    that raised: what it left of the file is not known. *)

Inductive event : Type :=
| Stderr (line : str)
| Stdout (line : str)
| WriteText (p : path) (content : str)
| WriteFailed (p : path) (content : str).

Definition io (A : Type) : Type := list event * result A.

Definition io_ret {A} (a : A) : io A := ([], Ok a).

Definition io_bind {A B} (m : io A) (k : A -> io B) : io B :=
  match m with
  | (tr, Ok a) => (tr ++ fst (k a), snd (k a))
  | (tr, Raise e) => (tr, Raise e)
  end.

Definition lift {A} (r : result A) : io A := ([], r).

Definition emit (e : event) : io unit := ([e], Ok tt).

Notation "x <- m ;; k" := (io_bind m (fun x => k))
  (at level 61, m at next level, right associativity).
Notation "m ;;; k" := (io_bind m (fun _ => k))
  (at level 61, right associativity).

(** [for x in l: body(x)] *)
Fixpoint for_each {A} (l : list A) (body : A -> io unit) : io unit :=
  match l with
  | [] => io_ret tt
  | x :: rest => body x ;;; for_each rest body
  end.

Section Root.
Variable ROOT : path.

(** What [write_text] does with the destination in the environment of
    the run: it returns, or it raises (the destination is a directory or
    cannot be written, the disk is full). *)
Variable write_text : path -> str -> result unit.

(** [sorted(ROOT.rglob("*.rs"))] *)
Definition walk (tree : list file) : list file :=
  sort_by f_path path_ltb (rglob_rs ROOT tree).

(** One line of the report of duplicates. *)
Definition duplicate_line (name : str) (rel : path) (line : nat) : str :=
  chars "  " ++ name ++ chars ": " ++ as_posix rel ++ chars "#L"
  ++ str_of_nat line.

Definition print_duplicate (name : str) (loc : path * nat) : io unit :=
  rel <- lift (relative_to (fst loc) ROOT) ;;
  emit (Stderr (duplicate_line name rel (snd loc))).

Definition collect_types (tree : list file) : io (list decl) :=
  st <- lift (scan_files (walk tree) ([], [])) ;;
  let duplicates :=
    filter (fun nl => 1 <? List.length (snd nl)) (snd st) in
  match duplicates with
  | [] => io_ret tt
  | _ :: _ =>
      emit (Stderr (chars "Duplicate type definitions found:")) ;;;
      for_each duplicates (fun nl =>
        for_each (snd nl) (print_duplicate (fst nl))) ;;;
      lift (Raise (SystemExit 1))
  end ;;;
  io_ret (sort_by d_name str_ltb (fst st)).

(** One row of the table. *)
Definition row (name kind rel : str) (line : nat) : str :=
  chars "| " ++ name ++ chars " | " ++ kind ++ chars " | `" ++ rel
  ++ chars "#L" ++ str_of_nat line ++ chars "` |".

(** The loop of [render_table] that appends the rows to [lines]. *)
Fixpoint render_rows (types : list decl) (lines : list str)
  : result (list str) :=
  match types with
  | [] => Ok lines
  | d :: rest =>
      match relative_to (d_path d) ROOT with
      | Raise e => Raise e
      | Ok rel =>
          render_rows rest
            (lines ++ [row (d_name d) (d_kind d) (as_posix rel) (d_line d)])
      end
  end.

Definition table_head : list str :=
  [ chars "# Type Index";
    chars "";
    chars "This file lists every `struct` and `enum` defined in the repository.";
    chars "";
    chars "| Type | Kind | Location |";
    chars "| --- | --- | --- |" ].

Definition table_foot : list str :=
  [ chars "";
    chars "Generated automatically to support DRY efforts.";
    chars "";
    chars "Run `python docs/generate_type_index.py` to regenerate.";
    chars "" ].

Definition newline : str := ["010"%char].

Definition render_table (types : list decl) : result str :=
  match render_rows types table_head with
  | Raise e => Raise e
  | Ok lines => Ok (join newline (lines ++ table_foot))
  end.

Definition output_path : path :=
  ROOT ++ [chars "docs"; chars "TYPE_INDEX.md"].

Definition summary (rel : path) (n : nat) : str :=
  chars "Wrote " ++ as_posix rel ++ chars " with " ++ str_of_nat n
  ++ chars " entries.".

(** [p.write_text(content)] *)
Definition write (p : path) (content : str) : io unit :=
  match write_text p content with
  | Ok _ => ([WriteText p content], Ok tt)
  | Raise e => ([WriteFailed p content], Raise e)
  end.

Definition main (tree : list file) : io unit :=
  types <- collect_types tree ;;
  output <- lift (render_table types) ;;
  write output_path output ;;;
  rel <- lift (relative_to output_path ROOT) ;;
  emit (Stdout (summary rel (List.length types))).
End Root.

(** Two environments for the write: a destination that takes every
    text, and one that refuses every text with the exception [e]. *)
Definition writable : path -> str -> result unit := fun _ _ => Ok tt.

Definition unwritable (e : exn) : path -> str -> result unit :=
  fun _ _ => Raise e.

(** What a run leaves behind. *)
Definition diagnostics {A} (r : io A) : list str :=
  flat_map (fun e => match e with Stderr l => [l] | _ => [] end) (fst r).

Definition printed {A} (r : io A) : list str :=
  flat_map (fun e => match e with Stdout l => [l] | _ => [] end) (fst r).

Definition documents {A} (r : io A) : list (path * str) :=
  flat_map (fun e => match e with WriteText p c => [(p, c)] | _ => [] end)
           (fst r).

(** ** The shape of a declaration line, in the words of the specification

    Optional white space, an optional visibility qualifier (the keyword
    [pub], optionally a parenthesized scope, then white space), the
    keyword [struct] or [enum], white space, and an identifier that
    begins with an upper-case letter and goes on with letters, digits and
    underscores.  Whatever follows on the line is free. *)

Definition is_scope (t : str) : Prop :=
  exists inner, t = chars "(" ++ inner ++ chars ")"
                /\ forallb notrparen inner = true.

Definition is_visibility (v : str) : Prop :=
  exists sc ws, v = chars "pub" ++ sc ++ ws
                /\ (sc = [] \/ is_scope sc)
                /\ ws <> [] /\ forallb isspace ws = true.

Definition is_keyword (k : str) : Prop :=
  k = chars "struct" \/ k = chars "enum".

(** The line starts with a declaration of [name] of kind [kind], and
    [rest] follows the identifier. *)
Definition declares (line kind name rest : str) : Prop :=
  exists ws vis ws2 c t,
    line = ws ++ vis ++ kind ++ ws2 ++ (c :: t) ++ rest
    /\ name = c :: t
    /\ forallb isspace ws = true
    /\ (vis = [] \/ is_visibility vis)
    /\ is_keyword kind
    /\ ws2 <> [] /\ forallb isspace ws2 = true
    /\ isupper c = true /\ forallb isident t = true.

(** The same with an identifier that begins with a lower-case letter. *)
Definition declares_lowercase (line : str) : Prop :=
  exists ws vis kind ws2 c rest,
    line = ws ++ vis ++ kind ++ ws2 ++ c :: rest
    /\ forallb isspace ws = true
    /\ (vis = [] \/ is_visibility vis)
    /\ is_keyword kind
    /\ ws2 <> [] /\ forallb isspace ws2 = true
    /\ islower c = true.

(** [r] does not begin with a character of the class [p]. *)
Definition stops (p : ascii -> bool) (r : str) : bool :=
  match r with
  | [] => true
  | c :: _ => negb (p c)
  end.

(** ** The scan and the run without the state

    What the loops compute, as lists: the records of a file and of all
    the files, the first exception that ends the scan, the index that
    [seen] is, and the texts that a run prints and writes. *)

(** Group 1 for a visibility qualifier read off the line. *)
Definition visibility_group (vis : str) : option str :=
  match vis with
  | [] => None
  | _ => Some vis
  end.

(** The records of the lines of a file, numbered from [idx]. *)
Fixpoint file_records (p : path) (idx : nat) (lines : list str)
  : list decl :=
  match lines with
  | [] => []
  | line :: rest =>
      match scan_line p idx line with
      | Some d => d :: file_records p (S idx) rest
      | None => file_records p (S idx) rest
      end
  end.

(** The text of a file that the scan reads and decodes. *)
Definition scanned_text (f : file) : option str :=
  if should_skip (f_path f) then None
  else match f_read f with
       | Ok text => Some text
       | Raise _ => None
       end.

Definition records_of (files : list file) : list decl :=
  flat_map (fun f => match scanned_text f with
                     | Some text => file_records (f_path f) 1 (splitlines text)
                     | None => []
                     end) files.

(** The first exception of a read that the scan does not catch. *)
Fixpoint first_error (files : list file) : option exn :=
  match files with
  | [] => None
  | f :: rest =>
      if should_skip (f_path f) then first_error rest
      else match f_read f with
           | Raise UnicodeDecodeError => first_error rest
           | Raise e => Some e
           | Ok _ => first_error rest
           end
  end.

(** The scan passes over the file without a record or an exception. *)
Definition silent (f : file) : Prop :=
  should_skip (f_path f) = true \/ f_read f = Raise UnicodeDecodeError.

Definition is_decode_error (f : file) : bool :=
  match f_read f with
  | Raise UnicodeDecodeError => true
  | _ => false
  end.

Definition loc (d : decl) : path * nat := (d_path d, d_line d).

(** The records that declare the name [n], in the order of the scan. *)
Definition occurrences (n : str) (types : list decl) : list decl :=
  filter (fun d => str_eqb (d_name d) n) types.

(** The names in the order in which they are first met. *)
Fixpoint first_seen (names : list str) : list str :=
  match names with
  | [] => []
  | n :: rest => n :: filter (fun m => negb (str_eqb n m)) (first_seen rest)
  end.

(** The index of the records by name. *)
Definition grouped (types : list decl) : seen_t :=
  map (fun n => (n, map loc (occurrences n types)))
      (first_seen (map d_name types)).

(** Some name is declared by two or more records. *)
Definition has_duplicate (types : list decl) : bool :=
  existsb (fun d => 1 <? List.length (occurrences (d_name d) types)) types.

Definition add_seen (s : seen_t) (d : decl) : seen_t :=
  setdefault_append (d_name d) (loc d) s.

(** File then line: the order in which the scan meets the records. *)
Definition scan_order (a b : decl) : Prop :=
  path_ltb (d_path a) (d_path b) = true
  \/ (d_path a = d_path b /\ d_line a < d_line b).

Definition path_lt (f g : file) : Prop :=
  path_ltb (f_path f) (f_path g) = true.

Definition name_lt (a b : decl) : Prop :=
  str_ltb (d_name a) (d_name b) = true.

Definition duplicate_header : str := chars "Duplicate type definitions found:".

Definition report_path : path := [chars "docs"; chars "TYPE_INDEX.md"].

(** The order of the keys, for the elements of a sorted list. *)
Section SortOrder.
Context {A K : Type} (key : A -> K) (ltb : K -> K -> bool).

Definition key_le (a b : A) : Prop := ltb (key b) (key a) = false.
Definition key_lt (a b : A) : Prop := ltb (key a) (key b) = true.
End SortOrder.

Section RootSpec.
Variable ROOT : path.

(** The path below the root. *)
Definition below (p : path) : path := skipn (List.length ROOT) p.

Definition under_root (d : decl) : Prop :=
  exists rel, d_path d = ROOT ++ rel.

(** The row of the table for a record. *)
Definition row_of (d : decl) : str :=
  row (d_name d) (d_kind d) (as_posix (below (d_path d))) (d_line d).

(** The text that [render_table] returns for records whose paths lie
    below the root, in the order given ([render_table_spec] below); for
    other records [render_table] raises and returns no text. *)
Definition document (types : list decl) : str :=
  join newline (table_head ++ map row_of types ++ table_foot).

(** The lines that report the duplicates: the duplicated names in the
    order in which they are first met, and for each of them its records
    in the order of the scan. *)
Definition duplicate_report (types : list decl) : list str :=
  flat_map
    (fun n => map (fun d => duplicate_line n (below (d_path d)) (d_line d))
                  (occurrences n types))
    (filter (fun n => 1 <? List.length (occurrences n types))
            (first_seen (map d_name types))).
End RootSpec.

(** What follows the optional visibility in [PATTERN], for a value of
    group 1. *)
Definition after_visibility (g1 : option str) : matcher groups :=
  bind (alt (lit (chars "struct")) (lit (chars "enum"))) (fun g2 =>
  bind (plus isspace) (fun _ =>
  bind (cls isupper) (fun c =>
  bind (star isident) (fun t =>
  ret (Groups g1 g2 (c :: t)))))).

(** A success with another value of group 1. *)
Definition with_group1 (g1 : option str) (gr : groups * str)
  : groups * str :=
  (Groups g1 (group2 (fst gr)) (group3 (fst gr)), snd gr).

(** No character of the text is a line boundary. *)
Definition no_linebreak (s : str) : bool :=
  forallb (fun c => negb (is_linebreak c)) s.

(** The name of the record is declared twice or more in [types]. *)
Definition is_duplicated (types : list decl) (d : decl) : bool :=
  1 <? List.length (occurrences (d_name d) types).

(** * Properties *)

(** ** Strings *)

Lemma strip_prefix_app (w r : str) : strip_prefix w (w ++ r) = Some r.
Proof.
  induction w as [|a w IH]; simpl; [reflexivity|].
  now rewrite Ascii.eqb_refl.
Qed.

Lemma strip_prefix_Some (w s r : str) :
  strip_prefix w s = Some r -> s = w ++ r.
Proof.
  revert s; induction w as [|a w IH]; intros [|b s]; simpl; intro H;
    try congruence.
  destruct (Ascii.eqb_spec a b) as [->|]; [|discriminate].
  now rewrite (IH _ H).
Qed.

Lemma dropWhile_app (p : ascii -> bool) (m r : str) :
  forallb p m = true -> stops p r = true -> dropWhile p (m ++ r) = r.
Proof.
  intros Hm Hr; induction m as [|a m IH]; simpl in *.
  - destruct r as [|c r]; simpl in *; [reflexivity|].
    now destruct (p c).
  - apply andb_prop in Hm as [-> Hm]. auto.
Qed.

(** ** The successes of the matchers *)

Lemma in_bind {A B} (m : matcher A) (k : A -> matcher B) s b r :
  In (b, r) (bind m k s) ->
  exists a r', In (a, r') (m s) /\ In (b, r) (k a r').
Proof.
  unfold bind; intro H. apply in_flat_map in H as [[a r'] [H1 H2]].
  now exists a, r'.
Qed.

Lemma in_ret {A} (a b : A) s r : In (b, r) (ret a s) -> b = a /\ r = s.
Proof. simpl; intros [H|[]]; now inversion H. Qed.

Lemma in_lit w s m r : In (m, r) (lit w s) -> m = w /\ s = w ++ r.
Proof.
  unfold lit. destruct (strip_prefix w s) eqn:E; simpl; [|tauto].
  intros [H|[]]; inversion H; subst. split; [reflexivity|].
  now apply strip_prefix_Some.
Qed.

Lemma in_cls p s c r : In (c, r) (cls p s) -> s = c :: r /\ p c = true.
Proof.
  destruct s as [|a s]; simpl; [tauto|].
  destruct (p a) eqn:E; simpl; [|tauto].
  intros [H|[]]; inversion H; subst; auto.
Qed.

Lemma in_star p s m r :
  In (m, r) (star p s) -> s = m ++ r /\ forallb p m = true.
Proof.
  revert m r; induction s as [|c s IH]; simpl; intros m r H.
  - destruct H as [H|[]]; inversion H; auto.
  - destruct (p c) eqn:E.
    + apply in_app_or in H as [H|[H|[]]].
      * apply in_map_iff in H as [[m' r'] [H1 H2]]; simpl in H1.
        inversion H1; subst. apply IH in H2 as [-> H2].
        simpl; rewrite E; auto.
      * inversion H; auto.
    + destruct H as [H|[]]; inversion H; auto.
Qed.

Lemma in_plus p s m r :
  In (m, r) (plus p s) -> s = m ++ r /\ m <> [] /\ forallb p m = true.
Proof.
  destruct s as [|c s]; simpl; [tauto|].
  destruct (p c) eqn:E; simpl; [|tauto].
  intro H. apply in_map_iff in H as [[m' r'] [H1 H2]]; simpl in H1.
  inversion H1; subst. apply in_star in H2 as [-> H2].
  simpl; rewrite E; repeat split; auto; discriminate.
Qed.

Lemma in_opt {A} (m : matcher A) s o r :
  In (o, r) (opt m s) ->
  (exists a, o = Some a /\ In (a, r) (m s)) \/ (o = None /\ r = s).
Proof.
  unfold opt; intro H. apply in_app_or in H as [H|[H|[]]].
  - apply in_map_iff in H as [[a r'] [H1 H2]]; simpl in H1.
    inversion H1; subst. left; now exists a.
  - inversion H; auto.
Qed.

Lemma in_alt {A} (m1 m2 : matcher A) s a r :
  In (a, r) (alt m1 m2 s) -> In (a, r) (m1 s) \/ In (a, r) (m2 s).
Proof. unfold alt; apply in_app_or. Qed.

Lemma in_scope s t r : In (t, r) (scope s) -> s = t ++ r /\ is_scope t.
Proof.
  unfold scope; intro H.
  apply in_bind in H as (l & r1 & H1 & H).
  apply in_bind in H as (inner & r2 & H2 & H).
  apply in_bind in H as (rp & r3 & H3 & H).
  apply in_lit in H1 as [-> ->]. apply in_star in H2 as [-> H2].
  apply in_lit in H3 as [-> ->]. apply in_ret in H as [-> ->].
  split; [now rewrite <- !app_assoc|]. now exists inner.
Qed.

Lemma in_visibility s v r :
  In (v, r) (visibility s) -> s = v ++ r /\ is_visibility v.
Proof.
  unfold visibility; intro H.
  apply in_bind in H as (p & r1 & H1 & H).
  apply in_bind in H as (sc & r2 & H2 & H).
  apply in_bind in H as (ws & r3 & H3 & H).
  apply in_lit in H1 as [-> ->]. apply in_plus in H3 as (E3 & Hne & Hws).
  apply in_ret in H as [-> ->].
  apply in_opt in H2 as [(t & -> & H2)|[-> E2]].
  - apply in_scope in H2 as [-> H2]. subst r2.
    split; [now rewrite <- !app_assoc|]. exists t, ws; auto.
  - subst r1 r2. split; [now rewrite <- !app_assoc|]. exists [], ws; auto.
Qed.

(** Every success of [PATTERN] reads a declaration off the line. *)
Lemma in_PATTERN line g r :
  In (g, r) (PATTERN line) -> declares line (group2 g) (group3 g) r.
Proof.
  unfold PATTERN; intro H.
  apply in_bind in H as (ws & r1 & H1 & H).
  apply in_bind in H as (g1 & r2 & H2 & H).
  apply in_bind in H as (g2 & r3 & H3 & H).
  apply in_bind in H as (ws2 & r4 & H4 & H).
  apply in_bind in H as (c & r5 & H5 & H).
  apply in_bind in H as (t & r6 & H6 & H).
  apply in_ret in H as [-> <-]; simpl.
  apply in_star in H1 as [-> Hws]. apply in_plus in H4 as (-> & Hne & Hws2).
  apply in_cls in H5 as [-> Hc]. apply in_star in H6 as [-> Ht].
  assert (Hk : r2 = g2 ++ ws2 ++ c :: t ++ r /\ is_keyword g2).
  { apply in_alt in H3 as [H3|H3]; apply in_lit in H3 as [-> ->];
      (split; [reflexivity|]); [now left|now right]. }
  destruct Hk as [E2 Hk].
  apply in_opt in H2 as [(v & -> & H2)|[-> E1]].
  - apply in_visibility in H2 as [-> Hv]. subst r2.
    exists ws, v, ws2, c, t. repeat split; auto.
  - subst r1 r2. exists ws, [], ws2, c, t. repeat split; auto.
Qed.

(** ** Evaluating the matchers

    A greedy class followed by something that cannot begin with a
    character of the class never gives a run back: the alternatives with
    a shorter run all fail. *)

Lemma flat_map_map {A B C} (g : B -> list C) (f : A -> B) (l : list A) :
  flat_map g (map f l) = flat_map (fun x => g (f x)) l.
Proof. induction l as [|x l IH]; simpl; congruence. Qed.

Lemma bind_ret {A B} (a : A) (k : A -> matcher B) s :
  bind (ret a) k s = k a s.
Proof. unfold bind, ret; simpl. apply app_nil_r. Qed.

Lemma bind_assoc {A B C} (m : matcher A) (f : A -> matcher B)
  (k : B -> matcher C) s :
  bind (bind m f) k s = bind m (fun a => bind (f a) k) s.
Proof.
  unfold bind. induction (m s) as [|x l IH]; simpl; [reflexivity|].
  now rewrite flat_map_app, IH.
Qed.

Lemma bind_nil {A B} (m : matcher A) (k : A -> matcher B) s :
  m s = [] -> bind m k s = [].
Proof. unfold bind; now intros ->. Qed.

Lemma bind_lit_app {B} w (k : str -> matcher B) r :
  bind (lit w) k (w ++ r) = k w r.
Proof.
  unfold bind, lit. rewrite strip_prefix_app; simpl. apply app_nil_r.
Qed.

Lemma bind_opt {A B} (m : matcher A) (k : option A -> matcher B) s :
  bind (opt m) k s = bind m (fun a => k (Some a)) s ++ k None s.
Proof.
  unfold bind, opt. rewrite flat_map_app, flat_map_map; simpl.
  now rewrite app_nil_r.
Qed.

Lemma bind_alt {A B} (m1 m2 : matcher A) (k : A -> matcher B) s :
  bind (alt m1 m2) k s = bind m1 k s ++ bind m2 k s.
Proof. unfold bind, alt. apply flat_map_app. Qed.

Lemma bind_star_commit {B} p (k : str -> matcher B) m r :
  forallb p m = true -> stops p r = true ->
  (forall m' c r', p c = true -> k m' (c :: r') = []) ->
  bind (star p) k (m ++ r) = k m r.
Proof.
  intros Hm Hr; revert k; induction m as [|a m IH]; intros k Hk.
  - destruct r as [|c r]; unfold bind; simpl in *.
    + apply app_nil_r.
    + destruct (p c); [discriminate|]. simpl. apply app_nil_r.
  - simpl in Hm. apply andb_prop in Hm as [Ha Hm].
    unfold bind; simpl. rewrite Ha, flat_map_app, flat_map_map; simpl.
    rewrite (Hk [] a _ Ha), app_nil_r.
    apply (IH Hm (fun m' => k (a :: m'))).
    intros m' c r' Hc. now apply Hk.
Qed.

Lemma bind_plus_commit {B} p (k : str -> matcher B) m r :
  m <> [] -> forallb p m = true -> stops p r = true ->
  (forall m' c r', p c = true -> k m' (c :: r') = []) ->
  bind (plus p) k (m ++ r) = k m r.
Proof.
  intros Hne Hm Hr Hk. destruct m as [|a m]; [congruence|].
  simpl in Hm. apply andb_prop in Hm as [Ha Hm].
  unfold bind, plus; simpl. rewrite Ha, flat_map_map; simpl.
  apply (bind_star_commit p (fun m' => k (a :: m')) m r Hm Hr).
  intros m' c r' Hc. now apply Hk.
Qed.

Lemma star_head p s :
  exists l, star p s = (takeWhile p s, dropWhile p s) :: l.
Proof.
  induction s as [|c s [l IH]]; simpl; [now exists []|].
  destruct (p c); [|now exists []].
  rewrite IH; simpl. eexists; reflexivity.
Qed.

Lemma takeWhile_app p m r :
  forallb p m = true -> takeWhile p (m ++ r) = m ++ takeWhile p r.
Proof.
  induction m as [|a m IH]; simpl; [reflexivity|].
  intro H. apply andb_prop in H as [-> H]. now rewrite IH.
Qed.

(** What the characters of the pattern exclude. *)
Lemma isspace_excludes c :
  isspace c = true ->
  isupper c = false
  /\ Ascii.eqb "p" c = false /\ Ascii.eqb "s" c = false
  /\ Ascii.eqb "e" c = false /\ Ascii.eqb "(" c = false
  /\ Ascii.eqb "/" c = false.
Proof.
  destruct c as [[] [] [] [] [] [] [] []]; vm_compute; intro H;
    try discriminate H; repeat split.
Qed.

Lemma lit_fails w a c r :
  Ascii.eqb a c = false -> lit (a :: w) (c :: r) = [].
Proof. unfold lit; simpl. now intros ->. Qed.

Lemma isupper_not_lower c : islower c = true -> isupper c = false.
Proof.
  destruct c as [[] [] [] [] [] [] [] []]; vm_compute; intro H;
    try discriminate H; reflexivity.
Qed.

Lemma keyword_stops kind r :
  is_keyword kind -> stops isspace (kind ++ r) = true.
Proof. intros [-> | ->]; reflexivity. Qed.

Lemma bind_keyword {B} (k : str -> matcher B) kind r :
  is_keyword kind ->
  bind (alt (lit (chars "struct")) (lit (chars "enum"))) k (kind ++ r)
  = k kind r.
Proof.
  intros [-> | ->]; rewrite bind_alt.
  - rewrite bind_lit_app. rewrite bind_nil; [apply app_nil_r|reflexivity].
  - rewrite bind_lit_app. rewrite bind_nil; reflexivity.
Qed.

Lemma keyword_fails {B} (k : str -> matcher B) c r :
  Ascii.eqb "s" c = false -> Ascii.eqb "e" c = false ->
  bind (alt (lit (chars "struct")) (lit (chars "enum"))) k (c :: r) = [].
Proof.
  intros Hs He. rewrite bind_alt.
  rewrite !bind_nil; [reflexivity| |]; now apply lit_fails.
Qed.

Lemma bind_scope {B} (k : str -> matcher B) t r :
  is_scope t -> bind scope k (t ++ r) = k t r.
Proof.
  intros (inner & -> & Hin). unfold scope.
  rewrite <- !app_assoc.
  rewrite bind_assoc, bind_lit_app, bind_assoc.
  rewrite bind_star_commit; [| assumption | reflexivity |].
  - now rewrite bind_assoc, bind_lit_app, bind_ret.
  - intros m' c r' Hc. rewrite bind_assoc. apply bind_nil, lit_fails.
    unfold notrparen in Hc. rewrite Ascii.eqb_sym.
    now destruct (Ascii.eqb c ")").
Qed.

Lemma scope_fails c r : Ascii.eqb "(" c = false -> scope (c :: r) = [].
Proof. intro H. unfold scope. now apply bind_nil, lit_fails. Qed.

Lemma bind_visibility {B} (k : str -> matcher B) v r :
  is_visibility v -> stops isspace r = true ->
  (forall v' c r', isspace c = true -> k v' (c :: r') = []) ->
  bind visibility k (v ++ r) = k v r.
Proof.
  intros (sc & ws & -> & Hsc & Hne & Hws) Hr Hk. unfold visibility.
  rewrite <- !app_assoc.
  rewrite bind_assoc, bind_lit_app, bind_assoc, bind_opt.
  assert (Hplus : forall o,
    bind (bind (plus isspace) (fun ws0 =>
            ret (chars "pub" ++ match o with Some t => t | None => [] end
                 ++ ws0))) k (ws ++ r)
    = k (chars "pub" ++ match o with Some t => t | None => [] end ++ ws) r).
  { intro o. rewrite bind_assoc.
    rewrite bind_plus_commit; auto; [apply bind_ret|].
    intros m' c r' Hc. rewrite bind_ret. now apply Hk. }
  destruct Hsc as [-> | Hsc].
  - simpl app at 1. destruct ws as [|a ws]; [congruence|].
    simpl in Hws. apply andb_prop in Hws as [Ha Hws'].
    rewrite bind_nil.
    + simpl. apply (Hplus None).
    + apply scope_fails. now apply isspace_excludes.
  - rewrite (bind_scope _ _ _ Hsc).
    match goal with |- ?X ++ ?Y = _ =>
      assert (EX : X = k (chars "pub" ++ sc ++ ws) r)
        by exact (Hplus (Some sc));
      assert (EY : Y = [])
    end.
    { destruct Hsc as (inner & -> & _).
      rewrite bind_assoc. apply bind_nil. reflexivity. }
    rewrite EX, EY. apply app_nil_r.
Qed.

Lemma visibility_fails c r :
  Ascii.eqb "p" c = false -> visibility (c :: r) = [].
Proof. intro H. unfold visibility. now apply bind_nil, lit_fails. Qed.

Lemma isupper_not_space c : isupper c = true -> isspace c = false.
Proof.
  intro H. destruct (isspace c) eqn:E; [|reflexivity].
  apply isspace_excludes in E as [E _]. congruence.
Qed.

Lemma islower_not_space c : islower c = true -> isspace c = false.
Proof.
  destruct c as [[] [] [] [] [] [] [] []]; vm_compute; intro H;
    try discriminate H; reflexivity.
Qed.

(** On a line that has the shape up to the first character of the
    identifier, the pattern is left with that character to decide. *)
Lemma PATTERN_eval ws vis kind ws2 c rest :
  forallb isspace ws = true ->
  vis = [] \/ is_visibility vis ->
  is_keyword kind ->
  ws2 <> [] -> forallb isspace ws2 = true ->
  isspace c = false ->
  PATTERN (ws ++ vis ++ kind ++ ws2 ++ c :: rest)
  = bind (cls isupper) (fun c0 =>
      bind (star isident) (fun t =>
        ret (Groups (visibility_group vis) kind (c0 :: t)))) (c :: rest).
Proof.
  intros Hws Hvis Hkind Hne Hws2 Hc. unfold PATTERN.
  assert (Hafter : forall g1,
    bind (alt (lit (chars "struct")) (lit (chars "enum"))) (fun g2 =>
      bind (plus isspace) (fun _ =>
        bind (cls isupper) (fun c0 =>
          bind (star isident) (fun t => ret (Groups g1 g2 (c0 :: t))))))
      (kind ++ ws2 ++ c :: rest)
    = bind (cls isupper) (fun c0 =>
        bind (star isident) (fun t => ret (Groups g1 kind (c0 :: t))))
        (c :: rest)).
  { intro g1. rewrite bind_keyword by assumption.
    rewrite (bind_plus_commit _ _ ws2 (c :: rest)); auto.
    - simpl. now rewrite Hc.
    - intros _ a r' Ha. apply bind_nil. simpl.
      apply isspace_excludes in Ha as [-> _]. reflexivity. }
  rewrite bind_star_commit; [| assumption | |].
  - rewrite bind_opt. destruct Hvis as [-> | Hvis].
    + simpl app at 2. rewrite bind_nil.
      * simpl. apply Hafter.
      * destruct Hkind as [-> | ->]; reflexivity.
    + rewrite bind_visibility; [| assumption | now apply keyword_stops |].
      * rewrite Hafter.
        destruct Hvis as (sc & ws1 & -> & _). simpl.
        rewrite keyword_fails; [apply app_nil_r | reflexivity | reflexivity].
      * intros v' a r' Ha.
        apply isspace_excludes in Ha as (_ & _ & Hs & He & _).
        now apply keyword_fails.
  - destruct Hvis as [-> | (sc & ws1 & -> & _)]; [|reflexivity].
    simpl app. now apply keyword_stops.
  - intros _ a r' Ha. apply isspace_excludes in Ha as (_ & Hp & Hs & He & _).
    rewrite bind_opt. rewrite bind_nil by now apply visibility_fails.
    now apply keyword_fails.
Qed.

(** The match on a declaration line: the kind, and the longest
    identifier at that place. *)
Lemma PATTERN_match_declares line kind name rest :
  declares line kind name rest ->
  exists g1, PATTERN_match line
             = Some (Groups g1 kind (name ++ takeWhile isident rest)).
Proof.
  intros (ws & vis & ws2 & c & t & -> & -> & Hws & Hvis & Hkind & Hne & Hws2
          & Hc & Ht).
  exists (visibility_group vis). unfold PATTERN_match.
  simpl app at 5.
  rewrite PATTERN_eval; auto using isupper_not_space.
  unfold bind at 1; simpl. rewrite Hc; simpl. rewrite app_nil_r.
  unfold bind.
  destruct (star_head isident (t ++ rest)) as [l ->]; simpl.
  now rewrite takeWhile_app.
Qed.

Lemma PATTERN_match_lowercase line :
  declares_lowercase line -> PATTERN_match line = None.
Proof.
  intros (ws & vis & kind & ws2 & c & rest & -> & Hws & Hvis & Hkind & Hne
          & Hws2 & Hc).
  unfold PATTERN_match.
  rewrite PATTERN_eval; auto using islower_not_space.
  unfold bind; simpl. now rewrite (isupper_not_lower c Hc).
Qed.

Lemma PATTERN_match_Some line g :
  PATTERN_match line = Some g ->
  exists rest, declares line (group2 g) (group3 g) rest.
Proof.
  unfold PATTERN_match. destruct (PATTERN line) as [|[g' r] l] eqn:E;
    [discriminate|].
  intro H; inversion H; subst. exists r.
  apply in_PATTERN. rewrite E. now left.
Qed.

(** ** The lexicographic order is a strict total order *)

Section LexEq.
Context {A : Type} (eqb : A -> A -> bool).
Hypothesis eqb_eq : forall a b, eqb a b = true <-> a = b.

Lemma lex_eqb_eq x y : lex_eqb eqb x y = true <-> x = y.
Proof.
  revert y; induction x as [|a x IH]; intros [|b y]; simpl;
    try (split; [discriminate|congruence]); [tauto|].
  rewrite andb_true_iff, eqb_eq, IH.
  split; [intros [-> ->]|intro H; inversion H]; auto.
Qed.
End LexEq.

Section LexOrder.
Context {A : Type} (eqb ltb : A -> A -> bool).
Hypothesis eqb_eq : forall a b, eqb a b = true <-> a = b.
Hypothesis ltb_irrefl : forall a, ltb a a = false.
Hypothesis ltb_trans :
  forall a b c, ltb a b = true -> ltb b c = true -> ltb a c = true.
Hypothesis ltb_total :
  forall a b, ltb a b = false -> ltb b a = false -> a = b.

Lemma eqb_refl_of a : eqb a a = true.
Proof using eqb_eq. now apply eqb_eq. Qed.

Lemma lex_ltb_irrefl x : lex_ltb eqb ltb x x = false.
Proof using eqb_eq.
  induction x as [|a x IH]; simpl; [reflexivity|].
  now rewrite eqb_refl_of.
Qed.

Lemma lex_ltb_trans x y z :
  lex_ltb eqb ltb x y = true -> lex_ltb eqb ltb y z = true ->
  lex_ltb eqb ltb x z = true.
Proof using eqb_eq ltb_irrefl ltb_trans.
  revert y z; induction x as [|a x IH]; intros [|b y] [|c z]; simpl;
    try congruence.
  destruct (eqb a b) eqn:Eab; destruct (eqb b c) eqn:Ebc.
  - apply eqb_eq in Eab, Ebc; subst. rewrite eqb_refl_of. apply IH.
  - apply eqb_eq in Eab; subst. rewrite Ebc. auto.
  - apply eqb_eq in Ebc; subst. rewrite Eab. auto.
  - intros H1 H2. destruct (eqb a c) eqn:Eac.
    + apply eqb_eq in Eac; subst.
      pose proof (ltb_trans _ _ _ H1 H2) as H. rewrite ltb_irrefl in H.
      discriminate.
    + eauto.
Qed.

Lemma lex_ltb_total x y :
  lex_ltb eqb ltb x y = false -> lex_ltb eqb ltb y x = false -> x = y.
Proof using eqb_eq ltb_total.
  revert y; induction x as [|a x IH]; intros [|b y]; simpl;
    try congruence.
  destruct (eqb a b) eqn:Eab.
  - apply eqb_eq in Eab; subst. rewrite eqb_refl_of.
    intros H1 H2. f_equal. auto.
  - destruct (eqb b a) eqn:Eba.
    + apply eqb_eq in Eba; subst. rewrite eqb_refl_of in Eab. discriminate.
    + intros H1 H2. rewrite (ltb_total _ _ H1 H2), eqb_refl_of in Eab.
      discriminate.
Qed.
End LexOrder.

Lemma code_inj a b : code a = code b -> a = b.
Proof.
  unfold code; intro H.
  rewrite <- (ascii_nat_embedding a), <- (ascii_nat_embedding b).
  now rewrite H.
Qed.

Lemma char_ltb_irrefl a : char_ltb a a = false.
Proof. apply Nat.ltb_irrefl. Qed.

Lemma char_ltb_trans a b c :
  char_ltb a b = true -> char_ltb b c = true -> char_ltb a c = true.
Proof. unfold char_ltb; rewrite !Nat.ltb_lt; lia. Qed.

Lemma char_ltb_total a b :
  char_ltb a b = false -> char_ltb b a = false -> a = b.
Proof.
  unfold char_ltb; rewrite !Nat.ltb_ge; intros. apply code_inj; lia.
Qed.

Lemma str_eqb_eq x y : str_eqb x y = true <-> x = y.
Proof. apply lex_eqb_eq, Ascii.eqb_eq. Qed.

Lemma str_eqb_refl x : str_eqb x x = true.
Proof. now apply str_eqb_eq. Qed.

Lemma str_eqb_sym_aux x y : str_eqb x y = str_eqb y x.
Proof.
  destruct (str_eqb x y) eqn:E1, (str_eqb y x) eqn:E2; try reflexivity.
  - apply str_eqb_eq in E1; subst. now rewrite str_eqb_refl in E2.
  - apply str_eqb_eq in E2; subst. now rewrite str_eqb_refl in E1.
Qed.

Lemma str_eqb_neq x y : str_eqb x y = false <-> x <> y.
Proof.
  rewrite <- str_eqb_eq. destruct (str_eqb x y); split; congruence.
Qed.

Lemma str_ltb_irrefl x : str_ltb x x = false.
Proof. apply lex_ltb_irrefl, Ascii.eqb_eq. Qed.

Lemma str_ltb_trans x y z :
  str_ltb x y = true -> str_ltb y z = true -> str_ltb x z = true.
Proof.
  apply lex_ltb_trans;
    first [exact Ascii.eqb_eq | exact char_ltb_irrefl | exact char_ltb_trans].
Qed.

Lemma str_ltb_total x y :
  str_ltb x y = false -> str_ltb y x = false -> x = y.
Proof.
  apply lex_ltb_total; first [exact Ascii.eqb_eq | exact char_ltb_total].
Qed.

Lemma path_ltb_irrefl x : path_ltb x x = false.
Proof. apply lex_ltb_irrefl, str_eqb_eq. Qed.

Lemma path_ltb_trans x y z :
  path_ltb x y = true -> path_ltb y z = true -> path_ltb x z = true.
Proof.
  apply lex_ltb_trans;
    first [exact str_eqb_eq | exact str_ltb_irrefl | exact str_ltb_trans].
Qed.

Lemma path_ltb_total x y :
  path_ltb x y = false -> path_ltb y x = false -> x = y.
Proof.
  apply lex_ltb_total; first [exact str_eqb_eq | exact str_ltb_total].
Qed.

(** ** The stable insertion sort *)

Section SortProps.
Context {A K : Type} (key : A -> K) (ltb : K -> K -> bool).
Hypothesis ltb_irrefl : forall a, ltb a a = false.
Hypothesis ltb_trans :
  forall a b c, ltb a b = true -> ltb b c = true -> ltb a c = true.
Hypothesis ltb_total :
  forall a b, ltb a b = false -> ltb b a = false -> a = b.

Lemma insert_perm x l : Permutation (insert key ltb x l) (x :: l).
Proof using Type.
  induction l as [|y l IH]; simpl; [reflexivity|].
  destruct (ltb (key y) (key x)); [|reflexivity].
  rewrite IH. apply perm_swap.
Qed.

Lemma sort_by_perm l : Permutation (sort_by key ltb l) l.
Proof using Type.
  induction l as [|x l IH]; simpl; [reflexivity|].
  now rewrite insert_perm, IH.
Qed.

Lemma key_lt_le a b : key_lt key ltb a b -> key_le key ltb a b.
Proof using ltb_irrefl ltb_trans.
  unfold key_lt, key_le; intro H.
  destruct (ltb (key b) (key a)) eqn:E; [|reflexivity].
  pose proof (ltb_trans _ _ _ H E) as F. now rewrite ltb_irrefl in F.
Qed.

Lemma key_le_trans a b c :
  key_le key ltb a b -> key_le key ltb b c -> key_le key ltb a c.
Proof using ltb_irrefl ltb_trans ltb_total.
  unfold key_le; intros H1 H2.
  destruct (ltb (key c) (key a)) eqn:E; [|reflexivity].
  destruct (ltb (key a) (key b)) eqn:Eab.
  - rewrite (ltb_trans _ _ _ E Eab) in H2. discriminate.
  - rewrite (ltb_total _ _ Eab H1) in E. congruence.
Qed.

Lemma insert_sorted x l :
  StronglySorted (key_le key ltb) l ->
  StronglySorted (key_le key ltb) (insert key ltb x l).
Proof using ltb_irrefl ltb_trans ltb_total.
  induction 1 as [|y l Hs IH Hy]; simpl.
  - repeat constructor.
  - destruct (ltb (key y) (key x)) eqn:E.
    + constructor; [assumption|].
      apply (Permutation_Forall (Permutation_sym (insert_perm x l))).
      constructor; [now apply key_lt_le|assumption].
    + constructor; [now constructor|].
      constructor; [exact E|].
      apply Forall_forall; intros z Hz.
      apply key_le_trans with y; [exact E|].
      now apply (proj1 (Forall_forall _ _) Hy).
Qed.

Lemma sort_by_sorted l : StronglySorted (key_le key ltb) (sort_by key ltb l).
Proof using ltb_irrefl ltb_trans ltb_total.
  induction l as [|x l IH]; simpl; [constructor|].
  now apply insert_sorted.
Qed.

Lemma sorted_strict l :
  StronglySorted (key_le key ltb) l -> NoDup (map key l) ->
  StronglySorted (key_lt key ltb) l.
Proof using ltb_total.
  induction 1 as [|y l Hs IH Hy]; simpl; intro Hnd; [constructor|].
  inversion Hnd as [|? ? Hin Hnd']; subst.
  constructor; [auto|].
  apply Forall_forall; intros z Hz.
  pose proof (proj1 (Forall_forall _ _) Hy z Hz) as Hle.
  unfold key_le in Hle; unfold key_lt.
  destruct (ltb (key y) (key z)) eqn:E; [reflexivity|].
  exfalso; apply Hin. rewrite (ltb_total _ _ E Hle). now apply in_map.
Qed.

Lemma sort_by_strict l :
  NoDup (map key l) -> StronglySorted (key_lt key ltb) (sort_by key ltb l).
Proof using ltb_irrefl ltb_trans ltb_total.
  intro Hnd. apply sorted_strict; [apply sort_by_sorted|].
  apply (Permutation_NoDup (l := map key l)); [|assumption].
  apply Permutation_map, Permutation_sym, sort_by_perm.
Qed.



Lemma insert_filter (f : A -> bool) x l :
  StronglySorted (key_le key ltb) l ->
  filter f (insert key ltb x l)
  = if f x then insert key ltb x (filter f l) else filter f l.
Proof using ltb_irrefl ltb_trans ltb_total.
  induction 1 as [|y l Hs IH Hy]; simpl.
  - now destruct (f x).
  - destruct (ltb (key y) (key x)) eqn:E; simpl.
    + rewrite IH. destruct (f y), (f x); simpl; rewrite ?E; reflexivity.
    + destruct (f x) eqn:Ex; [|reflexivity].
      destruct (f y); simpl; [now rewrite E|].
      assert (Hx : Forall (key_le key ltb x) l).
      { apply Forall_forall; intros z Hz.
        apply key_le_trans with y; [exact E|].
        now apply (proj1 (Forall_forall _ _) Hy). }
      clear IH Hy Hs. induction l as [|z l IHl]; simpl; [reflexivity|].
      inversion Hx as [|? ? Hz Hx']; subst.
      destruct (f z); simpl; [|auto].
      unfold key_le in Hz. now rewrite Hz.
Qed.

(** Sorting commutes with leaving elements out. *)
Lemma sort_by_filter (f : A -> bool) l :
  sort_by key ltb (filter f l) = filter f (sort_by key ltb l).
Proof using ltb_irrefl ltb_trans ltb_total.
  induction l as [|x l IH]; simpl; [reflexivity|].
  rewrite insert_filter by apply sort_by_sorted.
  destruct (f x); simpl; now rewrite IH.
Qed.
End SortProps.

(** ** The scan as a list of records *)

Lemma str_eq_dec (x y : str) : {x = y} + {x <> y}.
Proof. apply list_eq_dec, ascii_dec. Qed.

Lemma first_seen_in names n : In n (first_seen names) <-> In n names.
Proof.
  induction names as [|m names IH]; simpl; [tauto|].
  rewrite filter_In, IH, negb_true_iff, str_eqb_neq.
  destruct (str_eq_dec m n); tauto.
Qed.

Lemma first_seen_NoDup names : NoDup (first_seen names).
Proof.
  induction names as [|m names IH]; simpl; constructor.
  - rewrite filter_In, negb_true_iff, str_eqb_neq. tauto.
  - now apply NoDup_filter.
Qed.

Lemma first_seen_snoc names n :
  first_seen (names ++ [n])
  = if in_dec str_eq_dec n names then first_seen names
    else first_seen names ++ [n].
Proof.
  induction names as [|m names IH]; simpl; [reflexivity|].
  rewrite IH. destruct (in_dec str_eq_dec n names) as [Hin|Hin].
  - destruct (str_eq_dec m n); reflexivity.
  - rewrite filter_app; simpl.
    destruct (str_eq_dec m n) as [->|Hne].
    + rewrite str_eqb_refl; simpl. now rewrite app_nil_r.
    + apply str_eqb_neq in Hne. rewrite Hne; simpl.
      destruct (in_dec str_eq_dec n names); [contradiction|reflexivity].
Qed.

Lemma occurrences_nil n types :
  ~ In n (map d_name types) -> occurrences n types = [].
Proof.
  induction types as [|d types IH]; simpl; [reflexivity|].
  intro H. destruct (str_eqb (d_name d) n) eqn:E.
  - apply str_eqb_eq in E. tauto.
  - apply IH. tauto.
Qed.

Lemma setdefault_append_new n l (h : str -> list (path * nat)) names :
  ~ In n names ->
  setdefault_append n l (map (fun m => (m, h m)) names)
  = map (fun m => (m, h m)) names ++ [(n, [l])].
Proof.
  induction names as [|m names IH]; simpl; [reflexivity|].
  intro H. destruct (str_eqb m n) eqn:E.
  - apply str_eqb_eq in E. tauto.
  - rewrite IH by tauto. reflexivity.
Qed.

Lemma setdefault_append_old n l (h : str -> list (path * nat)) names :
  NoDup names -> In n names ->
  setdefault_append n l (map (fun m => (m, h m)) names)
  = map (fun m => (m, if str_eqb m n then h m ++ [l] else h m)) names.
Proof.
  induction 1 as [|m names Hm Hnd IH]; simpl; [tauto|].
  intro Hin. destruct (str_eqb m n) eqn:E.
  - apply str_eqb_eq in E; subst m. f_equal.
    apply map_ext_in. intros m Hm'.
    destruct (str_eqb m n) eqn:E'; [|reflexivity].
    apply str_eqb_eq in E'; subst. contradiction.
  - f_equal. apply IH. destruct Hin as [->|]; [|assumption].
    now rewrite str_eqb_refl in E.
Qed.

Lemma grouped_snoc types d :
  grouped (types ++ [d]) = add_seen (grouped types) d.
Proof.
  unfold grouped, add_seen. rewrite map_app; simpl.
  rewrite first_seen_snoc.
  destruct (in_dec str_eq_dec (d_name d) (map d_name types)) as [Hin|Hin].
  - rewrite setdefault_append_old;
      [| apply first_seen_NoDup | now apply first_seen_in].
    apply map_ext. intro m. unfold occurrences.
    rewrite filter_app, map_app; simpl.
    rewrite (str_eqb_sym_aux m (d_name d)).
    destruct (str_eqb (d_name d) m); simpl; [reflexivity|now rewrite app_nil_r].
  - rewrite setdefault_append_new by now rewrite first_seen_in.
    rewrite map_app; simpl. f_equal.
    + apply map_ext_in. intros m Hm.
      apply (proj1 (first_seen_in _ _)) in Hm.
      unfold occurrences. rewrite filter_app, map_app; simpl.
      destruct (str_eqb (d_name d) m) eqn:E; [|now rewrite app_nil_r].
      apply str_eqb_eq in E; subst. contradiction.
    + unfold occurrences. rewrite filter_app; simpl.
      rewrite str_eqb_refl. fold (occurrences (d_name d) types).
      now rewrite occurrences_nil.
Qed.

Lemma fold_add_seen ds types :
  fold_left add_seen ds (grouped types) = grouped (types ++ ds).
Proof.
  revert types; induction ds as [|d ds IH]; intro types; simpl.
  - now rewrite app_nil_r.
  - rewrite <- grouped_snoc, IH, <- app_assoc. reflexivity.
Qed.

Lemma scan_line_loc p idx line d :
  scan_line p idx line = Some d -> d_path d = p /\ d_line d = idx.
Proof.
  unfold scan_line. destruct (_ || _); [discriminate|].
  destruct (PATTERN_match line); [|discriminate].
  intro H; now inversion H.
Qed.

Lemma scan_lines_spec p idx lines st :
  scan_lines p idx lines st
  = (fst st ++ file_records p idx lines,
     fold_left add_seen (file_records p idx lines) (snd st)).
Proof.
  revert idx st; induction lines as [|line lines IH]; intros idx st; simpl.
  - rewrite app_nil_r. now destruct st.
  - rewrite IH. destruct (scan_line p idx line) as [d|] eqn:E;
      [|reflexivity].
    apply scan_line_loc in E as [Hp Hi]. subst p idx. simpl.
    now rewrite <- app_assoc.
Qed.

(** The loop over the files either stops at the first exception that
    is not caught or records every line of every file it reads. *)
Lemma scan_files_spec files st :
  scan_files files st
  = match first_error files with
    | Some e => Raise e
    | None => Ok (fst st ++ records_of files,
                  fold_left add_seen (records_of files) (snd st))
    end.
Proof.
  revert st; induction files as [|f files IH]; intro st; simpl.
  - rewrite app_nil_r. now destruct st.
  - unfold scanned_text.
    destruct (should_skip (f_path f)); [apply IH|].
    destruct (f_read f) as [text|e].
    + rewrite IH, scan_lines_spec; simpl.
      destruct (first_error files); [reflexivity|].
      now rewrite <- app_assoc, fold_left_app.
    + destruct e; try reflexivity. apply IH.
Qed.

Lemma file_records_spec p idx lines d :
  In d (file_records p idx lines) ->
  d_path d = p /\ idx <= d_line d
  /\ exists line, In line lines /\ scan_line p (d_line d) line = Some d.
Proof.
  revert idx; induction lines as [|line lines IH]; intro idx; simpl;
    [tauto|].
  assert (Hrec : In d (file_records p (S idx) lines) ->
                 d_path d = p /\ idx <= d_line d
                 /\ exists l, (line = l \/ In l lines)
                              /\ scan_line p (d_line d) l = Some d).
  { intro H. apply IH in H as (H1 & H2 & l & H3 & H4).
    repeat split; [assumption|lia|]. exists l; auto. }
  destruct (scan_line p idx line) as [d'|] eqn:E; [|exact Hrec].
  intros [->|H]; [|auto].
  assert (Hd : d_path d = p /\ d_line d = idx).
  { unfold scan_line in E. destruct (_ || _); [discriminate|].
    destruct (PATTERN_match line); [|discriminate].
    now inversion E. }
  destruct Hd as [Hp Hi]. repeat split; [assumption|lia|].
  exists line. rewrite Hi. auto.
Qed.

Lemma records_of_spec files d :
  In d (records_of files) ->
  exists f text, In f files /\ d_path d = f_path f
                 /\ should_skip (f_path f) = false
                 /\ f_read f = Ok text.
Proof.
  unfold records_of; intro H.
  apply in_flat_map in H as (f & Hf & H).
  unfold scanned_text in H.
  destruct (should_skip (f_path f)) eqn:Es; [destruct H|].
  destruct (f_read f) as [text|e] eqn:Er; [|destruct H].
  apply file_records_spec in H as [Hp _].
  exists f, text. auto.
Qed.

(** ** Duplicates *)

Lemma occurrences_in n types d :
  In d (occurrences n types) <-> In d types /\ d_name d = n.
Proof. unfold occurrences. now rewrite filter_In, str_eqb_eq. Qed.

Lemma has_duplicate_grouped types :
  filter (fun nl => 1 <? List.length (snd nl)) (grouped types) = []
  <-> has_duplicate types = false.
Proof.
  unfold grouped, has_duplicate. split; intro H.
  - destruct (existsb _ types) eqn:E; [|reflexivity].
    apply existsb_exists in E as (d & Hd & E).
    assert (Hin : In (d_name d, map loc (occurrences (d_name d) types))
                     (filter (fun nl => 1 <? List.length (snd nl))
                        (map (fun n => (n, map loc (occurrences n types)))
                           (first_seen (map d_name types))))).
    { apply filter_In; split; simpl.
      - apply in_map_iff. exists (d_name d). split; [reflexivity|].
        apply first_seen_in. now apply in_map.
      - now rewrite length_map. }
    rewrite H in Hin. destruct Hin.
  - destruct (filter _ _) as [|nl l] eqn:E; [reflexivity|].
    assert (Hin : In nl (nl :: l)) by now left.
    rewrite <- E in Hin. apply filter_In in Hin as [Hin Hlen].
    apply in_map_iff in Hin as (n & <- & Hn). simpl in Hlen.
    rewrite length_map in Hlen.
    apply first_seen_in, in_map_iff in Hn as (d & <- & Hd).
    assert (F : existsb
                  (fun d0 => 1 <? List.length (occurrences (d_name d0) types))
                  types = true).
    { apply existsb_exists. now exists d. }
    congruence.
Qed.

Lemma occurrences_NoDup types :
  NoDup (map d_name types) ->
  forall n, List.length (occurrences n types) <= 1.
Proof.
  induction types as [|d types IH]; simpl; intros Hnd n; [lia|].
  inversion Hnd as [|? ? Hin Hnd']; subst.
  destruct (str_eqb (d_name d) n) eqn:E; [|auto].
  apply str_eqb_eq in E; subst. simpl.
  rewrite occurrences_nil by assumption. simpl; lia.
Qed.

Lemma has_duplicate_false types :
  has_duplicate types = false
  <-> forall d, In d types ->
                List.length (occurrences (d_name d) types) <= 1.
Proof.
  unfold has_duplicate. split.
  - intros H d Hd.
    destruct (1 <? List.length (occurrences (d_name d) types)) eqn:E.
    + assert (F : existsb
                (fun d0 => 1 <? List.length (occurrences (d_name d0) types))
                types = true) by (apply existsb_exists; now exists d).
      congruence.
    + now apply Nat.ltb_ge in E.
  - intro H. destruct (existsb _ types) eqn:E; [|reflexivity].
    apply existsb_exists in E as (d & Hd & E). apply Nat.ltb_lt in E.
    specialize (H d Hd). lia.
Qed.

Lemma occurrences_cons_le n d types :
  List.length (occurrences n types)
  <= List.length (occurrences n (d :: types)).
Proof.
  unfold occurrences; simpl. destruct (str_eqb (d_name d) n); simpl; lia.
Qed.

Lemma has_duplicate_NoDup types :
  has_duplicate types = false <-> NoDup (map d_name types).
Proof.
  rewrite has_duplicate_false. split.
  - induction types as [|d types IH]; intro H; simpl; constructor.
    + intro Hin. apply in_map_iff in Hin as (d' & Hn & Hd').
      specialize (H d (or_introl eq_refl)).
      unfold occurrences in H; simpl in H. rewrite str_eqb_refl in H.
      assert (Hin : In d' (occurrences (d_name d) types))
        by now apply occurrences_in.
      unfold occurrences in Hin.
      destruct (filter _ types); [contradiction|simpl in H; lia].
    + apply IH. intros d' Hd'.
      pose proof (H d' (or_intror Hd')).
      pose proof (occurrences_cons_le (d_name d') d types). lia.
  - intros Hnd d _. now apply occurrences_NoDup.
Qed.

(** ** The run *)

Lemma filter_map_comm {A B} (f : B -> bool) (g : A -> B) (l : list A) :
  filter f (map g l) = map g (filter (fun x => f (g x)) l).
Proof.
  induction l as [|x l IH]; simpl; [reflexivity|].
  destruct (f (g x)); simpl; now rewrite IH.
Qed.

Lemma flat_map_map_out {A B C} (g : B -> C) (h : A -> list B) (l : list A) :
  flat_map (fun x => map g (h x)) l = map g (flat_map h l).
Proof.
  induction l as [|x l IH]; simpl; [reflexivity|].
  now rewrite map_app, IH.
Qed.

Lemma for_each_spec {A} (l : list A) (body : A -> io unit)
  (evs : A -> list event) :
  (forall x, In x l -> body x = (evs x, Ok tt)) ->
  for_each l body = (flat_map evs l, Ok tt).
Proof.
  induction l as [|x l IH]; intro H; simpl; [reflexivity|].
  rewrite (H x (or_introl eq_refl)). unfold io_bind.
  rewrite IH by (intros; apply H; now right). reflexivity.
Qed.

Section RootProps.
Variable ROOT : path.
Variable write_text : path -> str -> result unit.

Lemma below_app rel : below ROOT (ROOT ++ rel) = rel.
Proof.
  unfold below. induction ROOT as [|r root IH]; simpl; auto.
Qed.

Lemma relative_to_app rel : relative_to (ROOT ++ rel) ROOT = Ok rel.
Proof.
  induction ROOT as [|r root IH]; simpl; [now destruct rel|].
  now rewrite str_eqb_refl.
Qed.

Lemma relative_to_under p :
  (exists rel, p = ROOT ++ rel) -> relative_to p ROOT = Ok (below ROOT p).
Proof. intros [rel ->]. now rewrite relative_to_app, below_app. Qed.

Lemma walk_in tree f :
  In f (walk ROOT tree) <->
  exists g, In g tree /\ is_rs (f_path g) = true
            /\ f = File (ROOT ++ f_path g) (f_read g).
Proof.
  unfold walk.
  split.
  - intro H. apply (Permutation_in f (sort_by_perm _ _ _)) in H.
    unfold rglob_rs in H. apply in_map_iff in H as (g & <- & Hg).
    apply filter_In in Hg as [Hg Hrs]. now exists g.
  - intros (g & Hg & Hrs & ->).
    apply (Permutation_in _ (Permutation_sym (sort_by_perm _ _ _))).
    unfold rglob_rs. apply in_map_iff. exists g. split; [reflexivity|].
    now apply filter_In.
Qed.

Lemma records_under_root tree :
  Forall (under_root ROOT) (records_of (walk ROOT tree)).
Proof.
  apply Forall_forall. intros d Hd.
  apply records_of_spec in Hd as (f & text & Hf & Hp & _).
  apply walk_in in Hf as (g & _ & _ & ->). now exists (f_path g).
Qed.

Lemma print_duplicate_spec n d :
  under_root ROOT d ->
  print_duplicate ROOT n (loc d)
  = ([Stderr (duplicate_line n (below ROOT (d_path d)) (d_line d))], Ok tt).
Proof.
  intro H. unfold print_duplicate; simpl.
  now rewrite (relative_to_under _ H).
Qed.

Lemma print_duplicates_spec types :
  Forall (under_root ROOT) types ->
  for_each (filter (fun nl => 1 <? List.length (snd nl)) (grouped types))
    (fun nl => for_each (snd nl) (print_duplicate ROOT (fst nl)))
  = (map Stderr (duplicate_report ROOT types), Ok tt).
Proof.
  intro Hu. unfold grouped. rewrite filter_map_comm; simpl.
  rewrite (for_each_spec _ _
    (fun nl => map (fun l => Stderr (duplicate_line (fst nl)
                                       (below ROOT (fst l))
                                       (snd l))) (snd nl))).
  - f_equal. rewrite flat_map_map; simpl. unfold duplicate_report.
    rewrite <- flat_map_map_out.
    erewrite filter_ext
      by (intro n; rewrite length_map; reflexivity).
    apply flat_map_ext. intro n. rewrite !map_map. reflexivity.
  - intros nl Hnl. apply in_map_iff in Hnl as (n & <- & Hn); simpl.
    rewrite (for_each_spec _ _
      (fun l => [Stderr (duplicate_line n (below ROOT (fst l)) (snd l))])).
    + f_equal.
    + intros l Hl. apply in_map_iff in Hl as (d & <- & Hd).
      apply print_duplicate_spec.
      apply occurrences_in in Hd as [Hd _].
      now apply (proj1 (Forall_forall _ _) Hu).
Qed.

(** [collect_types], case by case. *)
Lemma collect_types_spec tree :
  collect_types ROOT tree
  = match first_error (walk ROOT tree) with
    | Some e => ([], Raise e)
    | None =>
        let types := records_of (walk ROOT tree) in
        if has_duplicate types
        then (Stderr duplicate_header
              :: map Stderr (duplicate_report ROOT types),
              Raise (SystemExit 1))
        else ([], Ok (sort_by d_name str_ltb types))
    end.
Proof.
  unfold collect_types. rewrite scan_files_spec.
  destruct (first_error (walk ROOT tree)); [reflexivity|].
  unfold lift, io_bind at 1. cbv zeta. simpl fst; simpl snd.
  change (fold_left add_seen (records_of (walk ROOT tree)) [])
    with (fold_left add_seen (records_of (walk ROOT tree)) (grouped [])).
  rewrite fold_add_seen; simpl app.
  pose proof (has_duplicate_grouped (records_of (walk ROOT tree))) as Hd.
  pose proof (print_duplicates_spec _ (records_under_root tree)) as Hp.
  destruct (filter _ (grouped _)) as [|nl l].
  - rewrite (proj1 Hd eq_refl). reflexivity.
  - destruct (has_duplicate _).
    + unfold io_bind, emit, lift. rewrite Hp. simpl.
      now rewrite app_nil_r.
    + destruct Hd as [_ Hd]. discriminate (Hd eq_refl).
Qed.

Lemma render_rows_spec types lines :
  Forall (under_root ROOT) types ->
  render_rows ROOT types lines = Ok (lines ++ map (row_of ROOT) types).
Proof.
  intro H; revert lines; induction H as [|d types Hd Hu IH]; intro lines;
    simpl.
  - now rewrite app_nil_r.
  - rewrite (relative_to_under _ Hd), IH, <- app_assoc. reflexivity.
Qed.

Lemma render_table_spec types :
  Forall (under_root ROOT) types ->
  render_table ROOT types = Ok (document ROOT types).
Proof.
  intro H. unfold render_table, document.
  rewrite render_rows_spec by assumption. now rewrite <- app_assoc.
Qed.

(** [main], case by case. *)
Lemma main_spec tree :
  main ROOT write_text tree
  = match first_error (walk ROOT tree) with
    | Some e => ([], Raise e)
    | None =>
        let types := records_of (walk ROOT tree) in
        if has_duplicate types
        then (Stderr duplicate_header
              :: map Stderr (duplicate_report ROOT types),
              Raise (SystemExit 1))
        else
          let sorted := sort_by d_name str_ltb types in
          match write_text (ROOT ++ report_path) (document ROOT sorted) with
          | Ok _ =>
              ([WriteText (ROOT ++ report_path) (document ROOT sorted);
                Stdout (summary report_path (List.length sorted))], Ok tt)
          | Raise e =>
              ([WriteFailed (ROOT ++ report_path) (document ROOT sorted)],
               Raise e)
          end
    end.
Proof.
  unfold main. rewrite collect_types_spec.
  destruct (first_error (walk ROOT tree)); [reflexivity|].
  cbv zeta. destruct (has_duplicate _); [reflexivity|].
  unfold io_bind at 1. simpl fst; simpl snd.
  rewrite render_table_spec.
  - unfold output_path, write. fold report_path.
    destruct (write_text _ _); [|reflexivity].
    unfold lift, emit, io_bind. rewrite relative_to_app. reflexivity.
  - apply (Permutation_Forall (Permutation_sym (sort_by_perm _ _ _))).
    apply records_under_root.
Qed.
End RootProps.

(** ** Files that leave no trace *)

Lemma scan_files_filter (h : file -> bool) files st :
  (forall f, In f files -> h f = false -> silent f) ->
  scan_files (filter h files) st = scan_files files st.
Proof.
  revert st; induction files as [|f files IH]; intros st H; simpl;
    [reflexivity|].
  assert (IH' : forall st', scan_files (filter h files) st'
                            = scan_files files st').
  { intro st'. apply IH. intros; apply H; [now right|assumption]. }
  destruct (h f) eqn:E; simpl.
  - destruct (should_skip (f_path f)); [apply IH'|].
    destruct (f_read f) as [text|[]]; auto.
  - destruct (H f (or_introl eq_refl) E) as [-> | ->]; [apply IH'|].
    destruct (should_skip (f_path f)); apply IH'.
Qed.

Lemma filter_comm {A} (f g : A -> bool) (l : list A) :
  filter f (filter g l) = filter g (filter f l).
Proof.
  induction l as [|x l IH]; simpl; [reflexivity|].
  destruct (f x) eqn:Ef, (g x) eqn:Eg; simpl; rewrite ?Ef, ?Eg, IH;
    reflexivity.
Qed.

Lemma path_sort_filter (h : file -> bool) (l : list file) :
  sort_by f_path path_ltb (filter h l) = filter h (sort_by f_path path_ltb l).
Proof.
  apply sort_by_filter;
    first [exact path_ltb_irrefl | exact path_ltb_trans
          | exact path_ltb_total].
Qed.

(** Leaving files out of the tree leaves them out of the walk. *)
Lemma walk_filter ROOT (h h' : file -> bool) tree :
  (forall f, h' (File (ROOT ++ f_path f) (f_read f)) = h f) ->
  walk ROOT (filter h tree) = filter h' (walk ROOT tree).
Proof.
  intro H. unfold walk, rglob_rs.
  rewrite <- path_sort_filter, filter_map_comm, filter_comm.
  do 2 f_equal. apply filter_ext. intro f. now rewrite H.
Qed.

Lemma main_walk ROOT write_text tree tree' :
  scan_files (walk ROOT tree) ([], []) = scan_files (walk ROOT tree') ([], [])
  -> main ROOT write_text tree = main ROOT write_text tree'.
Proof. intro H. unfold main, collect_types. now rewrite H. Qed.

(** ** Exceptions of the reads *)

Lemma first_error_Some files e :
  first_error files = Some e <->
  exists l1 f l2,
    files = l1 ++ f :: l2
    /\ (forall g, In g l1 -> silent g \/ exists text, f_read g = Ok text)
    /\ should_skip (f_path f) = false
    /\ f_read f = Raise e /\ e <> UnicodeDecodeError.
Proof.
  split.
  - induction files as [|f files IH]; simpl; [discriminate|].
    assert (Hrec : first_error files = Some e ->
                   (silent f \/ exists text, f_read f = Ok text) ->
                   exists l1 f0 l2, f :: files = l1 ++ f0 :: l2
                     /\ (forall g, In g l1 ->
                           silent g \/ exists text, f_read g = Ok text)
                     /\ should_skip (f_path f0) = false
                     /\ f_read f0 = Raise e /\ e <> UnicodeDecodeError).
    { intros H Hf. apply IH in H as (l1 & f0 & l2 & -> & Hq & Hs).
      exists (f :: l1), f0, l2. split; [reflexivity|]. split; [|assumption].
      intros g [<-|Hg]; auto. }
    destruct (should_skip (f_path f)) eqn:Es.
    + intro H. apply Hrec; [assumption|]. left; now left.
    + destruct (f_read f) as [text|e'] eqn:Er.
      * intro H. apply Hrec; [assumption|]. right; now exists text.
      * destruct e'; try (intro H; inversion H; subst;
          exists [], f, files; repeat split; simpl; try tauto; discriminate).
        intro H. apply Hrec; [assumption|]. left; now right.
  - intros (l1 & f & l2 & -> & Hq & Hs & Hr & He).
    induction l1 as [|g l1 IH]; simpl.
    + rewrite Hs, Hr. destruct e; congruence.
    + assert (IH' : first_error (l1 ++ f :: l2) = Some e)
        by (apply IH; intros; apply Hq; now right).
      destruct (Hq g (or_introl eq_refl)) as [[-> | ->]|[text ->]];
        try assumption.
      * now destruct (should_skip (f_path g)).
      * now destruct (should_skip (f_path g)).
Qed.

Lemma first_error_None files :
  first_error files = None <->
  forall f e, In f files -> should_skip (f_path f) = false ->
              f_read f = Raise e -> e = UnicodeDecodeError.
Proof.
  induction files as [|f files IH]; simpl; [split; [intros _ ? ? []|auto]|].
  destruct (should_skip (f_path f)) eqn:Es.
  - rewrite IH. split; intros H g e.
    + intros [<-|Hg]; [congruence|now apply H].
    + intro Hg. apply H. now right.
  - destruct (f_read f) as [text|e'] eqn:Er.
    + rewrite IH. split; intros H g e.
      * intros [<-|Hg]; [congruence|now apply H].
      * intro Hg. apply H. now right.
    + destruct e';
        try (split; [discriminate|];
             intro H; specialize (H f _ (or_introl eq_refl) Es Er);
             discriminate).
      rewrite IH. split; intros H g e.
      * intros [<-|Hg]; [congruence|now apply H].
      * intro Hg. apply H. now right.
Qed.

(** ** The order of the walk and of the scan *)

Lemma StronglySorted_app {A} (R : A -> A -> Prop) l1 l2 :
  StronglySorted R l1 -> StronglySorted R l2 ->
  (forall a b, In a l1 -> In b l2 -> R a b) ->
  StronglySorted R (l1 ++ l2).
Proof.
  induction 1 as [|x l1 Hs IH Hx]; intros H2 H; simpl; [assumption|].
  constructor.
  - apply IH; [assumption|]. intros; apply H; [now right|assumption].
  - apply Forall_app; split; [assumption|].
    apply Forall_forall. intros b Hb. apply H; [now left|assumption].
Qed.

Lemma StronglySorted_filter {A} (R : A -> A -> Prop) (f : A -> bool) l :
  StronglySorted R l -> StronglySorted R (filter f l).
Proof.
  induction 1 as [|x l Hs IH Hx]; simpl; [constructor|].
  destruct (f x); [|assumption].
  constructor; [assumption|].
  apply Forall_forall. intros y Hy. apply filter_In in Hy as [Hy _].
  now apply (proj1 (Forall_forall _ _) Hx).
Qed.

Lemma file_records_sorted p idx lines :
  StronglySorted scan_order (file_records p idx lines).
Proof.
  revert idx; induction lines as [|line lines IH]; intro idx; simpl;
    [constructor|].
  destruct (scan_line p idx line) as [d|] eqn:E; [|apply IH].
  apply scan_line_loc in E as [Hp Hi].
  constructor; [apply IH|].
  apply Forall_forall. intros d' Hd'.
  apply file_records_spec in Hd' as (Hp' & Hi' & _).
  right. split; [congruence|lia].
Qed.

Lemma records_of_sorted files :
  StronglySorted path_lt files -> StronglySorted scan_order (records_of files).
Proof.
  induction 1 as [|f files Hs IH Hf]; simpl; [constructor|].
  apply StronglySorted_app; [|assumption|].
  - destruct (scanned_text f); [apply file_records_sorted|constructor].
  - intros a b Ha Hb.
    destruct (scanned_text f); [|destruct Ha].
    apply file_records_spec in Ha as [Ha _].
    apply records_of_spec in Hb as (g & _ & Hg & Hb & _).
    left. rewrite Ha, Hb.
    now apply (proj1 (Forall_forall _ _) Hf).
Qed.

Lemma NoDup_map_filter {A B} (k : A -> B) (h : A -> bool) l :
  NoDup (map k l) -> NoDup (map k (filter h l)).
Proof.
  induction l as [|x l IH]; simpl; intro H; [constructor|].
  inversion H as [|? ? Hin Hnd]; subst.
  destruct (h x); simpl; [|auto].
  constructor; [|auto].
  intro Hx. apply Hin. apply in_map_iff in Hx as (y & Hy & Hy').
  apply filter_In in Hy' as [Hy' _]. rewrite <- Hy. now apply in_map.
Qed.

Lemma NoDup_map_app_root {A} (root : path) (k : A -> path) l :
  NoDup (map k l) -> NoDup (map (fun x => root ++ k x) l).
Proof.
  induction l as [|x l IH]; simpl; intro H; constructor;
    inversion H as [|? ? Hin Hnd]; subst; [|auto].
  intro Hx. apply Hin. apply in_map_iff in Hx as (y & Hy & Hy').
  apply app_inv_head in Hy. rewrite <- Hy. now apply in_map.
Qed.

Lemma rglob_rs_NoDup ROOT tree :
  NoDup (map f_path tree) -> NoDup (map f_path (rglob_rs ROOT tree)).
Proof.
  intro H. unfold rglob_rs. rewrite map_map; simpl.
  now apply NoDup_map_app_root, NoDup_map_filter.
Qed.


(** In a tree without two files of one path the walk is in strict
    order, and the order in which the tree lists its files is forgotten. *)
Lemma walk_sorted ROOT tree :
  NoDup (map f_path tree) -> StronglySorted path_lt (walk ROOT tree).
Proof.
  intro H. unfold walk.
  apply (sort_by_strict f_path path_ltb);
    first [exact path_ltb_irrefl | exact path_ltb_trans
          | exact path_ltb_total | idtac].
  now apply rglob_rs_NoDup.
Qed.


Lemma sort_names_perm types :
  Permutation (sort_by d_name str_ltb types) types.
Proof. apply sort_by_perm. Qed.

Lemma sort_names_sorted types :
  NoDup (map d_name types) ->
  StronglySorted name_lt (sort_by d_name str_ltb types).
Proof.
  apply (sort_by_strict d_name str_ltb);
    first [exact str_ltb_irrefl | exact str_ltb_trans | exact str_ltb_total].
Qed.

(** ** The run after the scan *)

Lemma should_skip_spec p :
  should_skip p = true <-> exists part, In part p /\ In part IGNORE_DIRS.
Proof.
  unfold should_skip. rewrite existsb_exists.
  split; intros (part & Hp & H); exists part; (split; [assumption|]).
  - apply existsb_exists in H as (x & Hx & E).
    apply str_eqb_eq in E. now subst.
  - apply existsb_exists. exists part. split; [assumption|].
    apply str_eqb_refl.
Qed.

Lemma scan_records ROOT tree st :
  scan_files (walk ROOT tree) ([], []) = Ok st ->
  first_error (walk ROOT tree) = None
  /\ fst st = records_of (walk ROOT tree).
Proof.
  rewrite scan_files_spec.
  destruct (first_error (walk ROOT tree)); [discriminate|].
  intro H; inversion H. auto.
Qed.

Lemma diagnostics_stderr {A} (l : list str) (tr : list event) (r : result A) :
  diagnostics (map Stderr l ++ tr, r) = l ++ diagnostics (tr, r).
Proof.
  unfold diagnostics; simpl. induction l as [|x l IH]; simpl; congruence.
Qed.

Lemma documents_stderr {A} (l : list str) (tr : list event) (r : result A) :
  documents (map Stderr l ++ tr, r) = documents (tr, r).
Proof.
  unfold documents; simpl. induction l as [|x l IH]; simpl; congruence.
Qed.

Lemma printed_stderr {A} (l : list str) (tr : list event) (r : result A) :
  printed (map Stderr l ++ tr, r) = printed (tr, r).
Proof.
  unfold printed; simpl. induction l as [|x l IH]; simpl; congruence.
Qed.

(** The run when the scan ends with the records [fst st]. *)
Lemma main_after_scan ROOT write_text tree st :
  scan_files (walk ROOT tree) ([], []) = Ok st ->
  main ROOT write_text tree
  = if has_duplicate (fst st)
    then (map Stderr (duplicate_header :: duplicate_report ROOT (fst st)),
          Raise (SystemExit 1))
    else
      match write_text (ROOT ++ report_path)
              (document ROOT (sort_by d_name str_ltb (fst st))) with
      | Ok _ =>
          ([WriteText (ROOT ++ report_path)
              (document ROOT (sort_by d_name str_ltb (fst st)));
            Stdout (summary report_path
                      (List.length (sort_by d_name str_ltb (fst st))))],
           Ok tt)
      | Raise e =>
          ([WriteFailed (ROOT ++ report_path)
              (document ROOT (sort_by d_name str_ltb (fst st)))],
           Raise e)
      end.
Proof.
  intro H. apply scan_records in H as [He Hr].
  rewrite main_spec, He, Hr. reflexivity.
Qed.

Lemma main_duplicates ROOT write_text tree st :
  scan_files (walk ROOT tree) ([], []) = Ok st ->
  has_duplicate (fst st) = true ->
  main ROOT write_text tree
  = (map Stderr (duplicate_header :: duplicate_report ROOT (fst st)),
     Raise (SystemExit 1)).
Proof. intros H Hd. now rewrite (main_after_scan _ _ _ _ H), Hd. Qed.

Lemma collect_types_after_scan ROOT tree st :
  scan_files (walk ROOT tree) ([], []) = Ok st ->
  collect_types ROOT tree
  = if has_duplicate (fst st)
    then (map Stderr (duplicate_header :: duplicate_report ROOT (fst st)),
          Raise (SystemExit 1))
    else ([], Ok (sort_by d_name str_ltb (fst st))).
Proof.
  intro H. apply scan_records in H as [He Hr].
  rewrite collect_types_spec, He, Hr. reflexivity.
Qed.

Lemma duplicate_report_complete ROOT types d :
  In d types -> 1 < List.length (occurrences (d_name d) types) ->
  In (duplicate_line (d_name d) (below ROOT (d_path d)) (d_line d))
     (duplicate_report ROOT types).
Proof.
  intros Hd Hlen. unfold duplicate_report.
  apply in_flat_map. exists (d_name d). split.
  - apply filter_In. split.
    + apply first_seen_in. now apply in_map.
    + now apply Nat.ltb_lt.
  - apply in_map_iff. exists d. split; [reflexivity|].
    now apply occurrences_in.
Qed.

Lemma file_records_iff p idx lines d :
  In d (file_records p idx lines) <->
  exists k line, nth_error lines k = Some line
                 /\ d_line d = idx + k
                 /\ scan_line p (idx + k) line = Some d.
Proof.
  revert idx; induction lines as [|l lines IH]; intro idx; simpl.
  - split; [tauto|]. intros ([|k] & line & H & _); discriminate.
  - assert (Hrest : In d (file_records p (S idx) lines) <->
              exists k line, nth_error lines k = Some line
                             /\ d_line d = idx + S k
                             /\ scan_line p (idx + S k) line = Some d).
    { rewrite IH. split; intros (k & line & H1 & H2 & H3);
        exists k, line; rewrite Nat.add_succ_r in *; simpl in *; auto. }
    destruct (scan_line p idx l) as [d'|] eqn:E; simpl.
    + split.
      * intros [<-|H].
        -- exists 0, l. rewrite Nat.add_0_r. repeat split; auto.
           apply scan_line_loc in E. tauto.
        -- apply Hrest in H as (k & line & H). exists (S k), line. auto.
      * intros ([|k] & line & H1 & H2 & H3); simpl in H1.
        -- inversion H1; subst. rewrite Nat.add_0_r in H3. left. congruence.
        -- right. apply Hrest. now exists k, line.
    + split.
      * intro H. apply Hrest in H as (k & line & H).
        exists (S k), line. auto.
      * intros ([|k] & line & H1 & H2 & H3); simpl in H1.
        -- inversion H1; subst. rewrite Nat.add_0_r in H3. congruence.
        -- apply Hrest. now exists k, line.
Qed.

Lemma records_of_iff files d :
  In d (records_of files) <->
  exists f text, In f files /\ should_skip (f_path f) = false
                 /\ f_read f = Ok text
                 /\ In d (file_records (f_path f) 1 (splitlines text)).
Proof.
  unfold records_of. rewrite in_flat_map. unfold scanned_text.
  split.
  - intros (f & Hf & H).
    destruct (should_skip (f_path f)) eqn:Es; [destruct H|].
    destruct (f_read f) as [text|e] eqn:Er; [|destruct H].
    now exists f, text.
  - intros (f & text & Hf & Hs & Hr & H). exists f.
    split; [assumption|]. now rewrite Hs, Hr.
Qed.

Lemma join_cons sep l ls :
  ls <> [] -> join sep (l :: ls) = l ++ sep ++ join sep ls.
Proof. destruct ls; [congruence|reflexivity]. Qed.

(** ** The text of the document *)

Lemma join_lines rows rest :
  rest <> [] ->
  join newline (rows ++ rest)
  = flat_map (fun r => r ++ newline) rows ++ join newline rest.
Proof.
  intro H. induction rows as [|r rows IH]; simpl app; [reflexivity|].
  rewrite join_cons by (destruct rows; [assumption|discriminate]).
  simpl flat_map. now rewrite IH, <- !app_assoc.
Qed.

(** The document, as text: the head, a line for each row, the foot. *)
Lemma document_text ROOT types :
  document ROOT types
  = chars "# Type Index

This file lists every `struct` and `enum` defined in the repository.

| Type | Kind | Location |
| --- | --- | --- |
"
    ++ flat_map
         (fun d => chars "| " ++ d_name d ++ chars " | " ++ d_kind d
                   ++ chars " | `" ++ as_posix (below ROOT (d_path d))
                   ++ chars "#L" ++ str_of_nat (d_line d) ++ chars "` |
") types
    ++ chars "
Generated automatically to support DRY efforts.

Run `python docs/generate_type_index.py` to regenerate.
".
Proof.
  unfold document.
  rewrite (join_lines table_head) by (destruct types; discriminate).
  rewrite (join_lines (map (row_of ROOT) types)) by discriminate.
  rewrite flat_map_map. unfold row_of, row.
  apply f_equal2; [reflexivity|]. apply f_equal2; [|reflexivity].
  apply flat_map_ext. intro d. now rewrite <- !app_assoc.
Qed.

Lemma join_slash a rest :
  join (chars "/") (a :: rest)
  = a ++ flat_map (fun part => chars "/" ++ part) rest.
Proof.
  revert a; induction rest as [|b rest IH]; intro a.
  - simpl. now rewrite app_nil_r.
  - rewrite join_cons by discriminate. now rewrite IH.
Qed.

(** The location of a record below the root, as it is printed. *)
Lemma location_text ROOT p a rest :
  p = ROOT ++ a :: rest ->
  as_posix (below ROOT p)
  = a ++ flat_map (fun part => chars "/" ++ part) rest.
Proof. intros ->. rewrite below_app. apply join_slash. Qed.

Lemma summary_text n :
  summary report_path n
  = chars "Wrote docs/TYPE_INDEX.md with " ++ str_of_nat n
    ++ chars " entries.".
Proof. reflexivity. Qed.

(** ** The report of the duplicates *)

Lemma has_duplicate_spec types :
  has_duplicate types = true <->
  exists d, In d types /\ 1 < List.length (occurrences (d_name d) types).
Proof.
  unfold has_duplicate. rewrite existsb_exists.
  split; intros (d & Hd & H); exists d; (split; [assumption|]);
    now apply Nat.ltb_lt.
Qed.

(** The records of a name declared twice or more are reported together,
    all of them, in the order of the scan. *)
Lemma duplicate_report_block ROOT types n :
  1 < List.length (occurrences n types) ->
  exists before after,
    duplicate_report ROOT types
    = before
      ++ map (fun d => duplicate_line n (below ROOT (d_path d)) (d_line d))
             (occurrences n types)
      ++ after.
Proof.
  intro Hlen.
  assert (Hin : In n (filter
                        (fun n => 1 <? List.length (occurrences n types))
                        (first_seen (map d_name types)))).
  { apply filter_In. split; [|now apply Nat.ltb_lt].
    apply first_seen_in.
    destruct (occurrences n types) as [|d l] eqn:E; [simpl in Hlen; lia|].
    assert (Hd : In d (occurrences n types)) by (rewrite E; now left).
    apply occurrences_in in Hd as [Hd <-]. now apply in_map. }
  apply in_split in Hin as (l1 & l2 & Hl).
  unfold duplicate_report. rewrite Hl, flat_map_app. simpl.
  now eexists; eexists.
Qed.

(** A run without duplicates prints nothing on the diagnostic stream,
    whatever the write does. *)
Lemma main_quiet ROOT write_text tree st :
  scan_files (walk ROOT tree) ([], []) = Ok st ->
  has_duplicate (fst st) = false ->
  diagnostics (main ROOT write_text tree) = [].
Proof.
  intros H Hd. rewrite (main_after_scan _ _ _ _ H), Hd.
  now destruct (write_text _ _).
Qed.

(** * The claims *)

(** Lines and orders on small inputs. *)
Example splitlines_blank_and_last :
  splitlines (chars "a

b
") = [chars "a"; chars ""; chars "b"]
  /\ splitlines (chars "") = []
  /\ splitlines ["a"%char; "013"%char; "010"%char; "b"%char]
     = [chars "a"; chars "b"].
Proof. repeat split. Qed.

Example upper_case_sorts_first :
  str_ltb (chars "Zeta") (chars "alpha") = true
  /\ str_ltb (chars "Foo") (chars "FooBar") = true
  /\ path_ltb [chars "a"; chars "z.rs"] [chars "a.rs"] = true.
Proof. repeat split. Qed.

Lemma takeWhile_nil_stops p r : takeWhile p r = [] -> stops p r = true.
Proof.
  destruct r as [|c r]; simpl; [reflexivity|].
  now destruct (p c).
Qed.

Lemma lstrip_app ws body :
  forallb isspace ws = true -> stops isspace body = true ->
  lstrip (ws ++ body) = body.
Proof. apply dropWhile_app. Qed.

(** A declaration line never opens with a comment marker, so the test
    for comments of the scanner takes nothing away from the pattern. *)
Lemma declares_not_comment line kind name rest :
  declares line kind name rest ->
  startswith (lstrip line) (chars "//") = false
  /\ startswith (lstrip line) (chars "/*") = false.
Proof.
  intros (ws & vis & ws2 & c & t & -> & _ & Hws & Hvis & Hkind & _).
  rewrite lstrip_app; [| assumption |].
  - destruct Hvis as [-> | (sc & ws1 & -> & _)].
    + destruct Hkind as [-> | ->]; split; reflexivity.
    + split; reflexivity.
  - destruct Hvis as [-> | (sc & ws1 & -> & _)]; [|reflexivity].
    simpl app. now apply keyword_stops.
Qed.

Lemma scan_line_Some p idx line d :
  scan_line p idx line = Some d <->
  startswith (lstrip line) (chars "//") = false
  /\ startswith (lstrip line) (chars "/*") = false
  /\ exists g, PATTERN_match line = Some g
               /\ d = Decl (group3 g) (group2 g) p idx.
Proof.
  unfold scan_line.
  destruct (startswith (lstrip line) (chars "//"));
    destruct (startswith (lstrip line) (chars "/*")); simpl;
    try (split; [discriminate | intros (H1 & H2 & _); discriminate]).
  destruct (PATTERN_match line) as [g|].
  - split.
    + intro H; inversion H. repeat split. now exists g.
    + intros (_ & _ & g' & Hg & ->). now inversion Hg.
  - split; [discriminate|]. intros (_ & _ & g' & Hg & _). discriminate.
Qed.

Lemma stops_takeWhile_nil p r : stops p r = true -> takeWhile p r = [].
Proof.
  destruct r as [|c r]; simpl; [reflexivity|].
  now destruct (p c).
Qed.

(** The scanner gives a record for a line exactly when the line
    declares its kind and name, the name being the whole identifier. *)
Lemma scan_line_declares p idx line d :
  scan_line p idx line = Some d <->
  d_path d = p /\ d_line d = idx
  /\ exists rest, declares line (d_kind d) (d_name d) rest
                  /\ stops isident rest = true.
Proof.
  split.
  - intro H. apply scan_line_Some in H as (_ & _ & g & Hg & ->); simpl.
    repeat split.
    destruct (PATTERN_match_Some _ _ Hg) as [rest Hd].
    exists rest. split; [assumption|].
    destruct (PATTERN_match_declares _ _ _ _ Hd) as [g1 Hg'].
    rewrite Hg in Hg'. inversion Hg' as [E].
    apply takeWhile_nil_stops.
    destruct g as [a b n]; simpl in *. inversion E as [[E1 E2]].
    apply (app_inv_head n). rewrite app_nil_r. now symmetry.
  - intros (Hp & Hi & rest & H & Hs).
    destruct (PATTERN_match_declares _ _ _ _ H) as [g1 Hg].
    destruct (declares_not_comment _ _ _ _ H) as [H1 H2].
    apply scan_line_Some. repeat split; try assumption.
    eexists; split; [exact Hg|]. simpl.
    rewrite (stops_takeWhile_nil _ _ Hs), app_nil_r.
    destruct d; simpl in *; congruence.
Qed.

(** C1: the loop of the scanner records a line exactly when the line
    starts, after optional white space, with an optional visibility
    qualifier ([pub], optionally a parenthesized scope, then white space),
    the keyword [struct] or [enum], white space, and an identifier that
    begins with an upper-case ASCII letter and goes on with letters,
    digits and underscores.  For such a line the loop appends to [types]
    the record of the keyword, the longest such identifier, the path and
    the line number, and appends the place to the entry of the name in
    [seen]; for any other line, and so for a line of that shape whose
    identifier begins with a lower-case letter, it leaves [types] and
    [seen] as they are.  So the records of a whole scan, and the records
    that [collect_types] returns, are exactly the lines of that shape of
    the files that are read. *)
Theorem scanner_records_exactly_the_declarations (p : path) (idx : nat)
  (line : str) :
  (forall kind name rest,
     declares line kind name rest ->
     forall st,
       scan_lines p idx [line] st
       = (fst st ++ [Decl (name ++ takeWhile isident rest) kind p idx],
          setdefault_append (name ++ takeWhile isident rest) (p, idx)
            (snd st)))
  /\ ((forall kind name rest, ~ declares line kind name rest) ->
      forall st, scan_lines p idx [line] st = st)
  /\ (declares_lowercase line ->
      forall st, scan_lines p idx [line] st = st)
  /\ ((exists d, scan_line p idx line = Some d)
      <-> (exists kind name rest, declares line kind name rest))
  /\ (forall ROOT tree st,
        scan_files (walk ROOT tree) ([], []) = Ok st ->
        (forall d,
           In d (fst st) <->
           exists f text l rest,
             In f tree /\ is_rs (f_path f) = true
             /\ should_skip (ROOT ++ f_path f) = false
             /\ f_read f = Ok text
             /\ d_path d = ROOT ++ f_path f
             /\ 1 <= d_line d
             /\ nth_error (splitlines text) (d_line d - 1) = Some l
             /\ declares l (d_kind d) (d_name d) rest
             /\ stops isident rest = true)
        /\ (forall tr types,
              collect_types ROOT tree = (tr, Ok types) ->
              forall d, In d types <-> In d (fst st))).
Proof.
  split; [|split; [|split; [|split]]].
  - intros kind name rest H st. simpl.
    destruct (PATTERN_match_declares _ _ _ _ H) as [g1 Hg].
    destruct (declares_not_comment _ _ _ _ H) as [H1 H2].
    unfold scan_line. now rewrite H1, H2, Hg.
  - intros H st. simpl.
    destruct (scan_line p idx line) as [d|] eqn:E; [|reflexivity].
    apply scan_line_declares in E as (_ & _ & rest & Hd & _).
    destruct (H _ _ _ Hd).
  - intros H st. simpl. unfold scan_line.
    rewrite (PATTERN_match_lowercase _ H).
    now destruct (_ || _).
  - split.
    + intros [d H]. apply scan_line_declares in H as (_ & _ & rest & H & _).
      now exists (d_kind d), (d_name d), rest.
    + intros (kind & name & rest & H).
      destruct (PATTERN_match_declares _ _ _ _ H) as [g1 Hg].
      destruct (declares_not_comment _ _ _ _ H) as [H1 H2].
      eexists. apply scan_line_Some. repeat split; try assumption.
      eexists; split; [exact Hg|reflexivity].
  - intros ROOT tree st H. split.
    + intro d. pose proof (scan_records _ _ _ H) as [_ ->].
      rewrite records_of_iff. split.
      * intros (f & text & Hf & Hs & Hr & Hd).
        apply walk_in in Hf as (g & Hg & Hrs & ->). simpl in *.
        apply file_records_iff in Hd as (k & l & Hk & Hl & Hsc).
        apply scan_line_declares in Hsc as (Hp & _ & rest & Hd & Hst).
        exists g, text, l, rest. rewrite Hl. simpl. rewrite Nat.sub_0_r.
        repeat split; auto. lia.
      * intros (f & text & l & rest & Hf & Hrs & Hs & Hr & Hp & Hl & Hn
                & Hd & Hst).
        exists (File (ROOT ++ f_path f) (f_read f)), text. simpl.
        repeat split; auto; [apply walk_in; now exists f|].
        apply file_records_iff. exists (d_line d - 1), l.
        replace (1 + (d_line d - 1)) with (d_line d) by lia.
        repeat split; auto.
        apply scan_line_declares. repeat split; auto. now exists rest.
    + intros tr types Hc d.
      rewrite (collect_types_after_scan _ _ _ H) in Hc.
      destruct (has_duplicate (fst st)); inversion Hc; subst.
      split; apply Permutation_in;
        [apply sort_names_perm | apply Permutation_sym, sort_names_perm].
Qed.

Lemma scanner_records_exactly_the_declarations_witness :
  scan_lines [chars "a.rs"] 7 [chars "struct foo"] ([], []) = ([], [])
  /\ scan_lines [chars "a.rs"] 7 [chars "  pub(crate) enum Foo_1<T> {"]
       ([], [])
     = ([Decl (chars "Foo_1") (chars "enum") [chars "a.rs"] 7],
        [(chars "Foo_1", [([chars "a.rs"], 7)])]).
Proof.
  split.
  - refine (proj1 (proj2 (proj2 (scanner_records_exactly_the_declarations
      [chars "a.rs"] 7 (chars "struct foo")))) _ ([], [])).
    exists [], [], (chars "struct"), (chars " "), "f"%char, (chars "oo").
    repeat split; auto; try discriminate. now left.
  - refine (proj1 (scanner_records_exactly_the_declarations
      [chars "a.rs"] 7 (chars "  pub(crate) enum Foo_1<T> {"))
      (chars "enum") (chars "Foo_1") (chars "<T> {") _ ([], [])).
    exists (chars "  "), (chars "pub(crate) "), (chars " "), "F"%char,
      (chars "oo_1").
    repeat split; auto; try discriminate; [|now right].
    right. exists (chars "(crate)"), (chars " ").
    repeat split; auto; try discriminate.
    right. exists (chars "crate"). split; reflexivity.
Defined.

(** C4: a line whose form without the leading white space starts with
    [//] or with the opening of a block comment gives no record and
    leaves the state of the scan as it is, whatever follows on the line;
    the line [struct Bar // trailing comment] gives exactly one record,
    named [Bar]. *)
Theorem comment_lines_give_no_record (p : path) (idx : nat) :
  (forall line,
     startswith (lstrip line) (chars "//") = true
     \/ startswith (lstrip line) (chars "/*") = true ->
     scan_line p idx line = None
     /\ forall st, scan_lines p idx [line] st = st)
  /\ (forall ws rest,
        forallb isspace ws = true ->
        scan_line p idx (ws ++ chars "//" ++ rest) = None
        /\ scan_line p idx (ws ++ chars "/*" ++ rest) = None)
  /\ scan_line p idx (chars "struct Bar // trailing comment")
     = Some (Decl (chars "Bar") (chars "struct") p idx)
  /\ fst (scan_lines p 1
            (splitlines (chars "struct Bar // trailing comment")) ([], []))
     = [Decl (chars "Bar") (chars "struct") p 1].
Proof.
  assert (H : forall line,
            startswith (lstrip line) (chars "//") = true
            \/ startswith (lstrip line) (chars "/*") = true ->
            scan_line p idx line = None).
  { intros line Hc. unfold scan_line.
    destruct Hc as [-> | ->]; [reflexivity|].
    now rewrite orb_true_r. }
  repeat split.
  - now apply H.
  - intro st. simpl. now rewrite (H line).
  - apply H. left. rewrite lstrip_app by auto. reflexivity.
  - apply H. right. rewrite lstrip_app by auto. reflexivity.
Qed.

Lemma comment_lines_give_no_record_witness :
  scan_line [chars "a.rs"] 3 (chars "   // struct Foo") = None
  /\ scan_line [chars "a.rs"] 3 (chars "/* enum Foo */ struct Baz") = None.
Proof.
  split.
  - apply (comment_lines_give_no_record [chars "a.rs"] 3). now left.
  - apply (comment_lines_give_no_record [chars "a.rs"] 3). now right.
Defined.

(** C5: a file is left out when any part of its path is [.git],
    [target] or [node_modules], wherever in the path the part stands: the
    run on a tree is the run on the tree without those files, and no
    record of the scan has such a path. *)
Theorem ignored_directories_are_excluded (ROOT : path)
  (write_text : path -> str -> result unit) (tree : list file) :
  (forall p, should_skip p = true
             <-> exists part, In part p /\ In part IGNORE_DIRS)
  /\ main ROOT write_text tree
     = main ROOT write_text
         (filter (fun f => negb (should_skip (ROOT ++ f_path f))) tree)
  /\ (forall st d, scan_files (walk ROOT tree) ([], []) = Ok st ->
                   In d (fst st) -> should_skip (d_path d) = false).
Proof.
  split; [exact should_skip_spec|split].
  - apply main_walk.
    rewrite (walk_filter ROOT _ (fun f => negb (should_skip (f_path f))))
      by reflexivity.
    symmetry. apply scan_files_filter.
    intros f _ H. left. now apply negb_false_iff.
  - intros st d H Hd. apply scan_records in H as [_ H]. rewrite H in Hd.
    apply records_of_spec in Hd as (f & text & _ & -> & Hs & _).
    exact Hs.
Qed.

Lemma ignored_directories_are_excluded_witness :
  should_skip [chars "/"; chars "repo"; chars "crates"; chars "target";
               chars "debug"; chars "x.rs"] = true
  /\ main [chars "/"; chars "repo"] writable
       [File [chars "crates"; chars "target"; chars "debug"; chars "x.rs"]
             (Ok (chars "pub struct Hidden;"))]
     = main [chars "/"; chars "repo"] writable [].
Proof.
  split.
  - apply (ignored_directories_are_excluded [] writable []).
    exists (chars "target"). split; simpl; auto.
  - exact (proj1 (proj2 (ignored_directories_are_excluded
             [chars "/"; chars "repo"] writable
             [File [chars "crates"; chars "target"; chars "debug";
                    chars "x.rs"] (Ok (chars "pub struct Hidden;"))]))).
Defined.

(** C7: a file that cannot be decoded is passed over in silence: the
    run on a tree is the run on the tree without the files whose read
    raises [UnicodeDecodeError], with the same records, the same
    diagnostics and the same end, and every record of the scan comes
    from a file that was decoded. *)
Theorem undecodable_files_are_skipped (ROOT : path)
  (write_text : path -> str -> result unit) (tree : list file) :
  collect_types ROOT tree
  = collect_types ROOT (filter (fun f => negb (is_decode_error f)) tree)
  /\ main ROOT write_text tree
     = main ROOT write_text (filter (fun f => negb (is_decode_error f)) tree)
  /\ (forall st d, scan_files (walk ROOT tree) ([], []) = Ok st ->
                   In d (fst st) ->
                   exists f text, In f tree /\ f_read f = Ok text
                                  /\ d_path d = ROOT ++ f_path f).
Proof.
  assert (H : scan_files (walk ROOT tree) ([], [])
              = scan_files
                  (walk ROOT (filter (fun f => negb (is_decode_error f)) tree))
                  ([], [])).
  { rewrite (walk_filter ROOT _ (fun f => negb (is_decode_error f)))
      by reflexivity.
    symmetry. apply scan_files_filter.
    intros f _ Hf. right. apply negb_false_iff in Hf.
    unfold is_decode_error in Hf.
    destruct (f_read f) as [|[]]; try discriminate. reflexivity. }
  split; [|split].
  - unfold collect_types. now rewrite H.
  - now apply main_walk.
  - intros st d Hs Hd. apply scan_records in Hs as [_ Hs]. rewrite Hs in Hd.
    apply records_of_spec in Hd as (f & text & Hf & -> & _ & Hr).
    apply walk_in in Hf as (g & Hg & _ & ->). now exists g, text.
Qed.

Lemma undecodable_files_are_skipped_witness :
  main [chars "/"; chars "repo"] writable
    [File [chars "bad.rs"] (Raise UnicodeDecodeError);
     File [chars "good.rs"] (Ok (chars "struct Good;"))]
  = main [chars "/"; chars "repo"] writable
      [File [chars "good.rs"] (Ok (chars "struct Good;"))].
Proof.
  exact (proj1 (proj2 (undecodable_files_are_skipped
           [chars "/"; chars "repo"] writable
           [File [chars "bad.rs"] (Raise UnicodeDecodeError);
            File [chars "good.rs"] (Ok (chars "struct Good;"))]))).
Defined.

(** C10: of the exceptions of a read only [UnicodeDecodeError] is
    caught.  When the read of a file that the walk reaches raises anything
    else, [collect_types] and [main] end with an exception of a read that
    is not [UnicodeDecodeError], namely that of the first such file in the
    order of the walk, and nothing is printed or written.  When every
    exception of a read is [UnicodeDecodeError], no read ends the run. *)
Theorem read_errors_propagate (ROOT : path)
  (write_text : path -> str -> result unit) (tree : list file) :
  (forall f e,
     In f tree -> is_rs (f_path f) = true ->
     should_skip (ROOT ++ f_path f) = false ->
     f_read f = Raise e -> e <> UnicodeDecodeError ->
     exists e', e' <> UnicodeDecodeError
                /\ (exists g, In g tree /\ f_read g = Raise e')
                /\ collect_types ROOT tree = ([], Raise e')
                /\ main ROOT write_text tree = ([], Raise e'))
  /\ (forall l1 f l2 e,
        walk ROOT tree = l1 ++ f :: l2 ->
        (forall g, In g l1 -> silent g \/ exists text, f_read g = Ok text) ->
        should_skip (f_path f) = false ->
        f_read f = Raise e -> e <> UnicodeDecodeError ->
        collect_types ROOT tree = ([], Raise e)
        /\ main ROOT write_text tree = ([], Raise e))
  /\ ((forall f e, In f tree -> f_read f = Raise e -> e = UnicodeDecodeError)
      -> exists st, scan_files (walk ROOT tree) ([], []) = Ok st).
Proof.
  assert (Hraise : forall e, first_error (walk ROOT tree) = Some e ->
            collect_types ROOT tree = ([], Raise e)
            /\ main ROOT write_text tree = ([], Raise e)).
  { intros e H. rewrite collect_types_spec, main_spec, H. auto. }
  split; [|split].
  - intros f e Hf Hrs Hs Hr He.
    destruct (first_error (walk ROOT tree)) as [e'|] eqn:E.
    + exists e'. pose proof (proj1 (first_error_Some _ _) E)
        as (l1 & g & l2 & Hw & _ & _ & Hg & He').
      split; [assumption|]. split; [|now apply Hraise].
      assert (Hin : In g (walk ROOT tree))
        by (rewrite Hw; apply in_elt).
      apply walk_in in Hin as (g0 & Hg0 & _ & ->). now exists g0.
    + exfalso. apply He.
      apply (proj1 (first_error_None _) E
               (File (ROOT ++ f_path f) (f_read f))); auto.
      apply walk_in. now exists f.
  - intros l1 f l2 e Hw Hq Hs Hr He. apply Hraise.
    apply first_error_Some. now exists l1, f, l2.
  - intro H. rewrite scan_files_spec.
    assert (E : first_error (walk ROOT tree) = None).
    { apply first_error_None. intros f e Hf _ Hr.
      apply walk_in in Hf as (g & Hg & _ & ->). now apply (H g). }
    rewrite E. eexists; reflexivity.
Qed.

Lemma read_errors_propagate_witness :
  main [chars "/"; chars "repo"] writable
    [File [chars "b.rs"] (Raise (OSError (chars "Permission denied")));
     File [chars "a.rs"] (Ok (chars "struct A;"))]
  = ([], Raise (OSError (chars "Permission denied"))).
Proof.
  refine (proj2 (proj1 (proj2 (read_errors_propagate
           [chars "/"; chars "repo"] writable
           [File [chars "b.rs"] (Raise (OSError (chars "Permission denied")));
            File [chars "a.rs"] (Ok (chars "struct A;"))]))
           [File [chars "/"; chars "repo"; chars "a.rs"]
                 (Ok (chars "struct A;"))]
           (File [chars "/"; chars "repo"; chars "b.rs"]
                 (Raise (OSError (chars "Permission denied"))))
           [] (OSError (chars "Permission denied")) _ _ _ _ _)).
  - reflexivity.
  - intros g [<-|[]]. right. now eexists.
  - reflexivity.
  - reflexivity.
  - discriminate.
Defined.




(** C9 does not hold as it is stated: a scan without a record
    does not make the run succeed.  With a destination that cannot be
    written, [write_text] raises, the exception leaves [main], no summary
    is printed and the exit status is 1. *)
Lemma empty_scan_with_unwritable_destination :
  scan_files (walk [chars "/"; chars "repo"]
                [File [chars "lib.rs"] (Ok (chars "fn main() {}"))])
    ([], [])
  = Ok ([], [])
  /\ main [chars "/"; chars "repo"]
       (unwritable (OSError (chars "Permission denied")))
       [File [chars "lib.rs"] (Ok (chars "fn main() {}"))]
     = ([WriteFailed
           [chars "/"; chars "repo"; chars "docs"; chars "TYPE_INDEX.md"]
           (chars "# Type Index

This file lists every `struct` and `enum` defined in the repository.

| Type | Kind | Location |
| --- | --- | --- |

Generated automatically to support DRY efforts.

Run `python docs/generate_type_index.py` to regenerate.
")],
        Raise (OSError (chars "Permission denied")))
  /\ exit_status
       (snd (main [chars "/"; chars "repo"]
               (unwritable (OSError (chars "Permission denied")))
               [File [chars "lib.rs"] (Ok (chars "fn main() {}"))]))
     = 1
  /\ printed (main [chars "/"; chars "repo"]
                (unwritable (OSError (chars "Permission denied")))
                [File [chars "lib.rs"] (Ok (chars "fn main() {}"))])
     = [].
Proof. repeat split; reflexivity. Qed.

(** C9, amended: when the scan gives no record, [collect_types]
    returns the empty list and [render_table] gives the head and the foot
    of the document with no row between them; [main] calls [write_text]
    on [docs/TYPE_INDEX.md] below the root with that text.  When the write
    returns, the trace is that write and a summary with the count 0, and
    the exit status is 0; when the write raises, its exception ends
    [main] and no summary is printed. *)
Theorem no_record_gives_empty_table (ROOT : path)
  (write_text : path -> str -> result unit) (tree : list file)
  (st : scan_state) :
  scan_files (walk ROOT tree) ([], []) = Ok st -> fst st = [] ->
  let dest := ROOT ++ [chars "docs"; chars "TYPE_INDEX.md"] in
  let skeleton := chars "# Type Index

This file lists every `struct` and `enum` defined in the repository.

| Type | Kind | Location |
| --- | --- | --- |

Generated automatically to support DRY efforts.

Run `python docs/generate_type_index.py` to regenerate.
" in
  collect_types ROOT tree = ([], Ok [])
  /\ render_table ROOT [] = Ok skeleton
  /\ (write_text dest skeleton = Ok tt ->
      main ROOT write_text tree
      = ([WriteText dest skeleton;
          Stdout (chars "Wrote docs/TYPE_INDEX.md with 0 entries.")], Ok tt)
      /\ exit_status (snd (main ROOT write_text tree)) = 0)
  /\ (forall e, write_text dest skeleton = Raise e ->
      main ROOT write_text tree = ([WriteFailed dest skeleton], Raise e)
      /\ printed (main ROOT write_text tree) = []).
Proof.
  intros H E dest skeleton.
  rewrite (main_after_scan _ _ _ _ H), (collect_types_after_scan _ _ _ H), E.
  change (has_duplicate []) with false. cbv iota.
  change (sort_by d_name str_ltb []) with (@nil decl).
  change (document ROOT []) with skeleton.
  change (ROOT ++ report_path) with dest.
  split; [reflexivity|]. split; [reflexivity|].
  split; [intro Hw | intros e Hw]; rewrite Hw; split; reflexivity.
Qed.

Lemma no_record_gives_empty_table_witness :
  main [chars "/"; chars "repo"] writable
    [File [chars ".git"; chars "x.rs"] (Ok (chars "struct Hidden;"));
     File [chars "a.rs"] (Ok (chars "fn main() {}"));
     File [chars "README.md"] (Ok (chars "struct NotRust"))]
  = ([WriteText [chars "/"; chars "repo"; chars "docs"; chars "TYPE_INDEX.md"]
        (chars "# Type Index

This file lists every `struct` and `enum` defined in the repository.

| Type | Kind | Location |
| --- | --- | --- |

Generated automatically to support DRY efforts.

Run `python docs/generate_type_index.py` to regenerate.
");
      Stdout (chars "Wrote docs/TYPE_INDEX.md with 0 entries.")], Ok tt)
  /\ main [chars "/"; chars "repo"]
       (unwritable (OSError (chars "No space left on device")))
       [File [chars "a.rs"] (Ok (chars "fn main() {}"))]
     = ([WriteFailed
           [chars "/"; chars "repo"; chars "docs"; chars "TYPE_INDEX.md"]
           (chars "# Type Index

This file lists every `struct` and `enum` defined in the repository.

| Type | Kind | Location |
| --- | --- | --- |

Generated automatically to support DRY efforts.

Run `python docs/generate_type_index.py` to regenerate.
")],
        Raise (OSError (chars "No space left on device"))).
Proof.
  split.
  - refine (proj1 (proj1 (proj2 (proj2 (no_record_gives_empty_table
             [chars "/"; chars "repo"] writable
             [File [chars ".git"; chars "x.rs"]
                   (Ok (chars "struct Hidden;"));
              File [chars "a.rs"] (Ok (chars "fn main() {}"));
              File [chars "README.md"] (Ok (chars "struct NotRust"))]
             ([], []) _ _))) _)); reflexivity.
  - refine (proj1 (proj2 (proj2 (proj2 (no_record_gives_empty_table
             [chars "/"; chars "repo"]
             (unwritable (OSError (chars "No space left on device")))
             [File [chars "a.rs"] (Ok (chars "fn main() {}"))]
             ([], []) _ _))) _ _)); reflexivity.
Defined.

(** C2: when the scan ends with records of which some name is declared
    twice or more, [collect_types] prints on the diagnostic stream the
    heading and then, for each such name, a line
    [  name: path#Lline] for every one of its records, and raises
    [SystemExit(1)]: that is the whole trace of [main], whatever the
    write would do, so the exit status is 1, no document is written and
    no summary is printed.  Every record of a name declared twice or more
    has its line, and the lines of one name stand together, as many as
    the name has records.  When no name is declared twice,
    [collect_types] prints nothing and returns the records of the scan,
    reordered only, and [main] prints nothing on the diagnostic
    stream. *)
Theorem duplicates_are_fatal (ROOT : path)
  (write_text : path -> str -> result unit) (tree : list file)
  (st : scan_state) :
  scan_files (walk ROOT tree) ([], []) = Ok st ->
  let types := fst st in
  let line_of := fun (n : str) (d : decl) =>
    chars "  " ++ n ++ chars ": " ++ as_posix (below ROOT (d_path d))
    ++ chars "#L" ++ str_of_nat (d_line d) in
  let lines :=
    flat_map (fun n => map (line_of n) (occurrences n types))
      (filter (fun n => 1 <? List.length (occurrences n types))
              (first_seen (map d_name types))) in
  (has_duplicate types = true <->
   exists d, In d types /\ 1 < List.length (occurrences (d_name d) types))
  /\ (has_duplicate types = false <-> NoDup (map d_name types))
  /\ (has_duplicate types = true ->
      collect_types ROOT tree
      = (map Stderr (chars "Duplicate type definitions found:" :: lines),
         Raise (SystemExit 1))
      /\ main ROOT write_text tree
         = (map Stderr (chars "Duplicate type definitions found:" :: lines),
            Raise (SystemExit 1))
      /\ exit_status (snd (main ROOT write_text tree)) = 1
      /\ documents (main ROOT write_text tree) = []
      /\ printed (main ROOT write_text tree) = []
      /\ (forall d, In d types ->
            1 < List.length (occurrences (d_name d) types) ->
            In (line_of (d_name d) d) lines)
      /\ (forall n, 1 < List.length (occurrences n types) ->
            exists before after,
              lines
              = before ++ map (line_of n) (occurrences n types) ++ after))
  /\ (has_duplicate types = false ->
      collect_types ROOT tree = ([], Ok (sort_by d_name str_ltb types))
      /\ Permutation (sort_by d_name str_ltb types) types
      /\ diagnostics (main ROOT write_text tree) = []).
Proof.
  intros H types line_of lines.
  split; [apply has_duplicate_spec|].
  split; [apply has_duplicate_NoDup|].
  split; intro Hd.
  - rewrite (main_duplicates _ _ _ _ H Hd).
    rewrite (collect_types_after_scan _ _ _ H). fold types. rewrite Hd.
    change (duplicate_report ROOT types) with lines.
    change duplicate_header with (chars "Duplicate type definitions found:").
    split; [reflexivity|]. split; [reflexivity|]. split; [reflexivity|].
    split; [|split; [|split]].
    + rewrite <- (app_nil_r (map Stderr _)). now rewrite documents_stderr.
    + rewrite <- (app_nil_r (map Stderr _)). now rewrite printed_stderr.
    + intros d Hin Hlen. now apply (duplicate_report_complete ROOT types d).
    + intros n Hlen. now apply (duplicate_report_block ROOT types n).
  - rewrite (collect_types_after_scan _ _ _ H). fold types. rewrite Hd.
    split; [reflexivity|]. split; [apply sort_names_perm|].
    now apply (main_quiet _ _ _ _ H).
Qed.

Lemma duplicates_are_fatal_witness :
  main [chars "/"; chars "repo"] writable
    [File [chars "b.rs"] (Ok (chars "
struct Gamma { x: u8 }
pub enum Gamma {}
struct Delta;"));
     File [chars "a.rs"] (Ok (chars "struct Gamma;"))]
  = ([Stderr (chars "Duplicate type definitions found:");
      Stderr (chars "  Gamma: a.rs#L1");
      Stderr (chars "  Gamma: b.rs#L2");
      Stderr (chars "  Gamma: b.rs#L3")], Raise (SystemExit 1))
  /\ collect_types [chars "/"; chars "repo"]
       [File [chars "a.rs"] (Ok (chars "struct Gamma;"));
        File [chars "c.rs"] (Ok (chars "enum Delta {}"))]
     = ([], Ok [Decl (chars "Delta") (chars "enum")
                     [chars "/"; chars "repo"; chars "c.rs"] 1;
                Decl (chars "Gamma") (chars "struct")
                     [chars "/"; chars "repo"; chars "a.rs"] 1]).
Proof.
  split.
  - refine (eq_trans (proj1 (proj2 (proj1 (proj2 (proj2
             (duplicates_are_fatal [chars "/"; chars "repo"] writable
                [File [chars "b.rs"] (Ok (chars "
struct Gamma { x: u8 }
pub enum Gamma {}
struct Delta;"));
                 File [chars "a.rs"] (Ok (chars "struct Gamma;"))]
                _ eq_refl))) _))) _); reflexivity.
  - refine (eq_trans (proj1 (proj2 (proj2 (proj2
             (duplicates_are_fatal [chars "/"; chars "repo"] writable
                [File [chars "a.rs"] (Ok (chars "struct Gamma;"));
                 File [chars "c.rs"] (Ok (chars "enum Delta {}"))]
                _ eq_refl))) _)) _); reflexivity.
Defined.

(** C6: when the scan ends with duplicates, the diagnostic stream
    holds the heading and then one line [  name: path#Lline] for each
    record of each duplicated name, the path taken below the root: the
    duplicated names come in the order in which the scan first met them,
    and under each name its records in the order of the scan, which is
    the order of the walk for the files (ascending paths) and ascending
    line numbers within a file. *)
Theorem duplicate_report_order (ROOT : path)
  (write_text : path -> str -> result unit) (tree : list file)
  (st : scan_state) :
  scan_files (walk ROOT tree) ([], []) = Ok st ->
  has_duplicate (fst st) = true ->
  diagnostics (main ROOT write_text tree)
  = chars "Duplicate type definitions found:"
    :: flat_map
         (fun n =>
            map (fun d => chars "  " ++ n ++ chars ": "
                          ++ as_posix (below ROOT (d_path d))
                          ++ chars "#L" ++ str_of_nat (d_line d))
                (occurrences n (fst st)))
         (filter (fun n => 1 <? List.length (occurrences n (fst st)))
                 (first_seen (map d_name (fst st))))
  /\ (NoDup (map f_path tree) ->
      StronglySorted path_lt (walk ROOT tree)
      /\ StronglySorted scan_order (fst st)
      /\ forall n, StronglySorted scan_order (occurrences n (fst st))).
Proof.
  intros H Hd. rewrite (main_after_scan _ _ _ _ H), Hd. split.
  - rewrite <- (app_nil_r (map Stderr _)), diagnostics_stderr.
    unfold diagnostics; simpl. now rewrite app_nil_r.
  - intro Hnd. apply scan_records in H as [_ ->].
    pose proof (walk_sorted ROOT tree Hnd) as Hw.
    pose proof (records_of_sorted _ Hw) as Hs.
    repeat split; try assumption.
    intro n. now apply StronglySorted_filter.
Qed.

Lemma duplicate_report_order_witness :
  diagnostics (main [chars "/"; chars "repo"] writable
    [File [chars "b.rs"] (Ok (chars "struct Beta;
struct Alpha;
enum Beta {}"));
     File [chars "a.rs"] (Ok (chars "struct Alpha;
struct Unique;"))])
  = [chars "Duplicate type definitions found:";
     chars "  Alpha: a.rs#L1"; chars "  Alpha: b.rs#L2";
     chars "  Beta: b.rs#L1"; chars "  Beta: b.rs#L3"].
Proof.
  refine (eq_trans (proj1 (duplicate_report_order [chars "/"; chars "repo"]
    writable
    [File [chars "b.rs"] (Ok (chars "struct Beta;
struct Alpha;
enum Beta {}"));
     File [chars "a.rs"] (Ok (chars "struct Alpha;
struct Unique;"))] _ eq_refl _)) _); reflexivity.
Defined.

(** C3: for records without a repeated name, with paths below the
    root, sorting by name and rendering gives this text: the title, the
    sentence, the header and the separator of the table; then one line
    [| name | kind | `path#Lline` |] for each record, ended by a line
    feed, where the path is the parts below the root joined by slashes;
    then the trailer and the instruction to regenerate, the text ending
    with one line feed.  The rows are those of a reordering of the
    records that ascends strictly by name, compared by code points.  That
    text is what [collect_types] and [render_table] give in a run after a
    scan without duplicates, and what [main] writes when the write
    returns. *)
Theorem report_rows_sorted (ROOT : path) (types : list decl) :
  Forall (under_root ROOT) types -> NoDup (map d_name types) ->
  let sorted := sort_by d_name str_ltb types in
  let dest := ROOT ++ [chars "docs"; chars "TYPE_INDEX.md"] in
  let doc :=
    chars "# Type Index

This file lists every `struct` and `enum` defined in the repository.

| Type | Kind | Location |
| --- | --- | --- |
"
    ++ flat_map
         (fun d => chars "| " ++ d_name d ++ chars " | " ++ d_kind d
                   ++ chars " | `" ++ as_posix (below ROOT (d_path d))
                   ++ chars "#L" ++ str_of_nat (d_line d) ++ chars "` |
") sorted
    ++ chars "
Generated automatically to support DRY efforts.

Run `python docs/generate_type_index.py` to regenerate.
" in
  Permutation sorted types
  /\ StronglySorted name_lt sorted
  /\ render_table ROOT sorted = Ok doc
  /\ (forall p a rest,
        p = ROOT ++ a :: rest ->
        as_posix (below ROOT p)
        = a ++ flat_map (fun part => chars "/" ++ part) rest)
  /\ forall write_text tree st,
       scan_files (walk ROOT tree) ([], []) = Ok st -> fst st = types ->
       collect_types ROOT tree = ([], Ok sorted)
       /\ (write_text dest doc = Ok tt ->
           main ROOT write_text tree
           = ([WriteText dest doc;
               Stdout (chars "Wrote docs/TYPE_INDEX.md with "
                       ++ str_of_nat (List.length types)
                       ++ chars " entries.")], Ok tt)).
Proof.
  intros Hu Hnd sorted dest doc.
  assert (Hdoc : document ROOT sorted = doc) by apply document_text.
  split; [apply sort_names_perm|].
  split; [now apply sort_names_sorted|]. split; [|split].
  - rewrite <- Hdoc. apply render_table_spec.
    apply (Permutation_Forall (Permutation_sym (sort_names_perm types))).
    assumption.
  - intros p a rest. apply location_text.
  - intros write_text tree st H E.
    apply has_duplicate_NoDup in Hnd.
    rewrite (collect_types_after_scan _ _ _ H), E, Hnd.
    split; [reflexivity|]. intro Hw.
    rewrite (main_after_scan _ _ _ _ H), E, Hnd.
    fold sorted. rewrite Hdoc. change (ROOT ++ report_path) with dest.
    rewrite Hw, summary_text. unfold sorted.
    now rewrite (Permutation_length (sort_names_perm types)).
Qed.

Lemma report_rows_sorted_witness :
  render_table [chars "/"; chars "repo"]
    (sort_by d_name str_ltb
       [Decl (chars "Beta") (chars "enum")
             [chars "/"; chars "repo"; chars "b.rs"] 12;
        Decl (chars "Alpha") (chars "struct")
             [chars "/"; chars "repo"; chars "src"; chars "a.rs"] 3;
        Decl (chars "ALPHA") (chars "enum")
             [chars "/"; chars "repo"; chars "src"; chars "m"; chars "c.rs"]
             107])
  = Ok (chars "# Type Index

This file lists every `struct` and `enum` defined in the repository.

| Type | Kind | Location |
| --- | --- | --- |
| ALPHA | enum | `src/m/c.rs#L107` |
| Alpha | struct | `src/a.rs#L3` |
| Beta | enum | `b.rs#L12` |

Generated automatically to support DRY efforts.

Run `python docs/generate_type_index.py` to regenerate.
").
Proof.
  refine (eq_trans (proj1 (proj2 (proj2 (report_rows_sorted
    [chars "/"; chars "repo"]
    [Decl (chars "Beta") (chars "enum")
          [chars "/"; chars "repo"; chars "b.rs"] 12;
     Decl (chars "Alpha") (chars "struct")
          [chars "/"; chars "repo"; chars "src"; chars "a.rs"] 3;
     Decl (chars "ALPHA") (chars "enum")
          [chars "/"; chars "repo"; chars "src"; chars "m"; chars "c.rs"]
          107] _ _)))) _).
  - repeat constructor.
    + now exists [chars "b.rs"].
    + now exists [chars "src"; chars "a.rs"].
    + now exists [chars "src"; chars "m"; chars "c.rs"].
  - repeat constructor; simpl; intuition discriminate.
  - reflexivity.
Defined.

(** The two scenarios of the specification, run with a destination
    that can be written. *)
Example scenario_alpha_beta :
  main [chars "/"; chars "repo"] writable
    [File [chars "b.rs"] (Ok (chars "enum Beta { One, Two }"));
     File [chars "a.rs"] (Ok (chars "use std::fmt;

pub struct Alpha { x: i32 }"))]
  = ([WriteText [chars "/"; chars "repo"; chars "docs"; chars "TYPE_INDEX.md"]
        (chars "# Type Index

This file lists every `struct` and `enum` defined in the repository.

| Type | Kind | Location |
| --- | --- | --- |
| Alpha | struct | `a.rs#L3` |
| Beta | enum | `b.rs#L1` |

Generated automatically to support DRY efforts.

Run `python docs/generate_type_index.py` to regenerate.
");
      Stdout (chars "Wrote docs/TYPE_INDEX.md with 2 entries.")], Ok tt).
Proof. reflexivity. Qed.

Example scenario_gamma_duplicate :
  main [chars "/"; chars "repo"] writable
    [File [chars "x.rs"] (Ok (chars "struct Gamma;"));
     File [chars "y.rs"] (Ok (chars "// two
pub struct Gamma { a: u8 }"))]
  = ([Stderr (chars "Duplicate type definitions found:");
      Stderr (chars "  Gamma: x.rs#L1");
      Stderr (chars "  Gamma: y.rs#L2")], Raise (SystemExit 1)).
Proof. reflexivity. Qed.

(** * Further properties of the code *)

(** ** The scanner: indentation and anchoring *)

Lemma takeWhile_dropWhile (p : ascii -> bool) (s : str) :
  takeWhile p s ++ dropWhile p s = s.
Proof.
  induction s as [|c s IH]; simpl; [reflexivity|].
  destruct (p c); simpl; congruence.
Qed.

Lemma takeWhile_all (p : ascii -> bool) (s : str) :
  forallb p (takeWhile p s) = true.
Proof.
  induction s as [|c s IH]; simpl; [reflexivity|].
  destruct (p c) eqn:E; simpl; [now rewrite E|reflexivity].
Qed.

Lemma dropWhile_stops (p : ascii -> bool) (s : str) :
  stops p (dropWhile p s) = true.
Proof.
  induction s as [|c s IH]; simpl; [reflexivity|].
  destruct (p c) eqn:E; simpl; [assumption|now rewrite E].
Qed.

Lemma dropWhile_all_app (p : ascii -> bool) (ws s : str) :
  forallb p ws = true -> dropWhile p (ws ++ s) = dropWhile p s.
Proof.
  induction ws as [|a ws IH]; simpl; [reflexivity|].
  intro H. apply andb_prop in H as [-> H]. auto.
Qed.

(** A greedy class whose run is not captured, before something that
    cannot begin in the class, takes any longer run all the same. *)
Lemma bind_star_skip {B} p (k : str -> matcher B) ws s :
  (forall m m' r, k m r = k m' r) ->
  (forall m c r, p c = true -> k m (c :: r) = []) ->
  forallb p ws = true ->
  bind (star p) k (ws ++ s) = bind (star p) k s.
Proof.
  intros Hk Hfail Hws.
  rewrite <- (takeWhile_dropWhile p s) at 2.
  rewrite (bind_star_commit p k (takeWhile p s) (dropWhile p s));
    auto using takeWhile_all, dropWhile_stops.
  rewrite <- (takeWhile_dropWhile p s) at 1. rewrite app_assoc.
  rewrite (bind_star_commit p k (ws ++ takeWhile p s) (dropWhile p s));
    auto using dropWhile_stops.
  rewrite forallb_app, Hws. apply takeWhile_all.
Qed.

Lemma PATTERN_indent ws line :
  forallb isspace ws = true -> PATTERN (ws ++ line) = PATTERN line.
Proof.
  intro Hws. unfold PATTERN. apply bind_star_skip; [reflexivity| |assumption].
  intros _ a r Ha.
  apply isspace_excludes in Ha as (_ & Hp & Hs & He & _).
  rewrite bind_opt. rewrite bind_nil by now apply visibility_fails.
  now apply keyword_fails.
Qed.

Lemma PATTERN_unanchored c rest :
  isspace c = false ->
  Ascii.eqb "p" c = false -> Ascii.eqb "s" c = false ->
  Ascii.eqb "e" c = false ->
  PATTERN (c :: rest) = [].
Proof.
  intros Hc Hp Hs He. unfold PATTERN.
  unfold bind at 1; simpl. rewrite Hc; simpl. rewrite app_nil_r.
  rewrite bind_opt. rewrite bind_nil by now apply visibility_fails.
  now apply keyword_fails.
Qed.

(** X1: white space in front of a line changes nothing: the line with
    any indentation gives the record, or none, that it gives without. *)
Theorem indentation_is_ignored (p : path) (idx : nat) (ws line : str) :
  forallb isspace ws = true ->
  scan_line p idx (ws ++ line) = scan_line p idx line.
Proof.
  intro Hws. unfold scan_line, lstrip, PATTERN_match.
  now rewrite dropWhile_all_app, PATTERN_indent.
Qed.

Lemma indentation_is_ignored_witness :
  scan_line [chars "m.rs"] 4 (chars "    pub enum Inner { A }")
  = scan_line [chars "m.rs"] 4 (chars "pub enum Inner { A }").
Proof.
  apply (indentation_is_ignored [chars "m.rs"] 4 (chars "    ")
           (chars "pub enum Inner { A }")).
  reflexivity.
Defined.

(** X2: a declaration is found only at the start of a line: when the
    first character after the leading white space is none of [p], [s]
    and [e], the line gives no record, whatever follows. *)
Theorem unanchored_lines_give_no_record (p : path) (idx : nat)
  (ws : str) (c : ascii) (rest : str) :
  forallb isspace ws = true -> isspace c = false ->
  c <> "p"%char -> c <> "s"%char -> c <> "e"%char ->
  scan_line p idx (ws ++ c :: rest) = None.
Proof.
  intros Hws Hc Hp Hs He.
  unfold scan_line, PATTERN_match.
  rewrite PATTERN_indent by assumption.
  rewrite PATTERN_unanchored; try assumption.
  - now destruct (_ || _).
  - apply Ascii.eqb_neq. congruence.
  - apply Ascii.eqb_neq. congruence.
  - apply Ascii.eqb_neq. congruence.
Qed.

Lemma unanchored_lines_give_no_record_witness :
  scan_line [chars "m.rs"] 9 (chars "  #[derive(Debug)] struct Late;") = None.
Proof.
  apply (unanchored_lines_give_no_record [chars "m.rs"] 9 (chars "  ")
           "#"%char (chars "[derive(Debug)] struct Late;"));
    (reflexivity || discriminate).
Defined.

(** ** The scan: what is recorded *)

(** X3: the records of a scan are exactly the matching lines of the
    files that are read: a record stands in [types] if and only if some
    file of the tree with a name in [*.rs], not skipped and decoded, has
    at the record's line number, counted from 1, a line for which the
    scanner gives that record, with the path of the file. *)
Theorem scan_records_the_matching_lines (ROOT : path) (tree : list file)
  (st : scan_state) :
  scan_files (walk ROOT tree) ([], []) = Ok st ->
  forall d,
    In d (fst st) <->
    exists f text line,
      In f tree /\ is_rs (f_path f) = true
      /\ should_skip (ROOT ++ f_path f) = false
      /\ f_read f = Ok text
      /\ d_path d = ROOT ++ f_path f
      /\ 1 <= d_line d
      /\ nth_error (splitlines text) (d_line d - 1) = Some line
      /\ scan_line (ROOT ++ f_path f) (d_line d) line = Some d.
Proof.
  intros H d. apply scan_records in H as [_ ->].
  rewrite records_of_iff. split.
  - intros (f & text & Hf & Hs & Hr & Hd).
    apply walk_in in Hf as (g & Hg & Hrs & ->). simpl in *.
    apply file_records_iff in Hd as (k & line & Hk & Hl & Hsc).
    exists g, text, line. rewrite Hl. simpl. rewrite Nat.sub_0_r.
    repeat split; auto; [|lia].
    apply scan_line_loc in Hsc. tauto.
  - intros (f & text & line & Hf & Hrs & Hs & Hr & Hp & Hl & Hn & Hsc).
    exists (File (ROOT ++ f_path f) (f_read f)), text. simpl.
    repeat split; auto.
    + apply walk_in. now exists f.
    + apply file_records_iff. exists (d_line d - 1), line.
      replace (1 + (d_line d - 1)) with (d_line d) by lia. auto.
Qed.

Lemma scan_records_the_matching_lines_witness :
  In (Decl (chars "Point") (chars "struct")
        [chars "/"; chars "repo"; chars "geo.rs"] 2)
     (fst (scan_lines [chars "/"; chars "repo"; chars "geo.rs"] 1
             (splitlines (chars "// shapes
pub struct Point { x: f64 }")) ([], []))).
Proof.
  refine (proj2 (scan_records_the_matching_lines [chars "/"; chars "repo"]
    [File [chars "geo.rs"] (Ok (chars "// shapes
pub struct Point { x: f64 }"))] _ eq_refl _) _).
  exists (File [chars "geo.rs"] (Ok (chars "// shapes
pub struct Point { x: f64 }"))), (chars "// shapes
pub struct Point { x: f64 }"), (chars "pub struct Point { x: f64 }").
  simpl. repeat split; auto.
Defined.

(** X4: every record of a scan is well formed: its kind is [struct]
    or [enum], its name is an upper-case ASCII letter followed by letters,
    digits and underscores only, its line number is at least 1, and its
    path is that of a file below the root with a name in [*.rs] and no
    ignored part. *)
Theorem records_are_well_formed (ROOT : path) (tree : list file)
  (st : scan_state) :
  scan_files (walk ROOT tree) ([], []) = Ok st ->
  forall d, In d (fst st) ->
    (d_kind d = chars "struct" \/ d_kind d = chars "enum")
    /\ (exists c t, d_name d = c :: t /\ isupper c = true
                    /\ forallb isident t = true)
    /\ 1 <= d_line d
    /\ exists rel, d_path d = ROOT ++ rel /\ is_rs rel = true
                   /\ should_skip (d_path d) = false.
Proof.
  intros H d Hd. apply scan_records in H as [_ H]. rewrite H in Hd.
  apply records_of_iff in Hd as (f & text & Hf & Hs & Hr & Hd).
  apply walk_in in Hf as (g & Hg & Hrs & ->). simpl in *.
  apply file_records_iff in Hd as (k & line & Hk & Hl & Hsc).
  pose proof (scan_line_loc _ _ _ _ Hsc) as [Hp _].
  apply scan_line_Some in Hsc as (_ & _ & m & Hm & ->). simpl in *.
  apply PATTERN_match_Some in Hm
    as (rest & ws & vis & ws2 & c & t & _ & Hn & _ & _ & Hkind & _ & _
        & Hc & Ht).
  repeat split.
  - exact Hkind.
  - now exists c, t.
  - lia.
  - exists (f_path g). auto.
Qed.

Lemma records_are_well_formed_witness :
  d_kind (Decl (chars "Point") (chars "struct")
            [chars "/"; chars "repo"; chars "geo.rs"] 1) = chars "struct"
  \/ d_kind (Decl (chars "Point") (chars "struct")
               [chars "/"; chars "repo"; chars "geo.rs"] 1) = chars "enum".
Proof.
  refine (proj1 (records_are_well_formed [chars "/"; chars "repo"]
    [File [chars "geo.rs"] (Ok (chars "pub struct Point { x: f64 }"))]
    _ eq_refl _ _)).
  simpl. now left.
Defined.

(** X5: the dict [seen] is the index of the list [types] at the end of
    the loop, whatever files were scanned: its keys are the names of the
    records, each once, in the order in which they are first met; the
    entry of a name lists the places of all the records of that name, in
    the order of the scan, so it is never empty and every record has its
    place in the entry of its name. *)
Theorem seen_indexes_types (files : list file) (st : scan_state) :
  scan_files files ([], []) = Ok st ->
  snd st = map (fun n => (n, map (fun d => (d_path d, d_line d))
                               (occurrences n (fst st))))
               (first_seen (map d_name (fst st)))
  /\ NoDup (map fst (snd st))
  /\ (forall n locs, In (n, locs) (snd st) ->
        locs <> [] /\ In n (map d_name (fst st)))
  /\ (forall d, In d (fst st) ->
        exists locs, In (d_name d, locs) (snd st)
                     /\ In (d_path d, d_line d) locs).
Proof.
  rewrite scan_files_spec. destruct (first_error files); [discriminate|].
  intro H; inversion H; subst; clear H. simpl fst; simpl snd.
  change (fold_left add_seen (records_of files) [])
    with (fold_left add_seen (records_of files) (grouped [])).
  rewrite fold_add_seen; simpl app.
  set (types := records_of files).
  split; [reflexivity|]. unfold grouped. split; [|split].
  - rewrite map_map; simpl. rewrite map_id. apply first_seen_NoDup.
  - intros n locs Hin. apply in_map_iff in Hin as (m & E & Hm).
    inversion E; subst. apply (proj1 (first_seen_in _ _)) in Hm.
    split; [|assumption].
    apply in_map_iff in Hm as (d & <- & Hd).
    assert (Ho : In d (occurrences (d_name d) types))
      by now apply occurrences_in.
    destruct (occurrences (d_name d) types); [destruct Ho|discriminate].
  - intros d Hd. exists (map loc (occurrences (d_name d) types)). split.
    + apply in_map_iff. exists (d_name d). split; [reflexivity|].
      apply first_seen_in. now apply in_map.
    + apply (in_map loc). now apply occurrences_in.
Qed.

Lemma seen_indexes_types_witness :
  snd (scan_lines [chars "a.rs"] 1
         [chars "struct B;"; chars "enum A {}"; chars "struct B {}"] ([], []))
  = [(chars "B", [([chars "a.rs"], 1); ([chars "a.rs"], 3)]);
     (chars "A", [([chars "a.rs"], 2)])].
Proof.
  refine (eq_trans (proj1 (seen_indexes_types
    [File [chars "a.rs"] (Ok (chars "struct B;
enum A {}
struct B {}"))] _ eq_refl)) _).
  reflexivity.
Defined.

(** ** The walk below an ignored root *)

Lemma scan_files_all_skipped files st :
  (forall f, In f files -> should_skip (f_path f) = true) ->
  scan_files files st = Ok st.
Proof.
  induction files as [|f files IH]; intro H; simpl; [reflexivity|].
  rewrite (H f (or_introl eq_refl)). apply IH.
  intros; apply H; now right.
Qed.

Lemma should_skip_app p q :
  should_skip (p ++ q) = should_skip p || should_skip q.
Proof. unfold should_skip. apply existsb_app. Qed.

(** X7: the test for ignored directories looks at the whole absolute
    path, the parts of the root included.  When the root itself has a part
    named [.git], [target] or [node_modules], every file is skipped and
    none is read: whatever the tree holds, unreadable files and duplicates
    included, the scan ends without a record and [collect_types] returns
    the empty list without a diagnostic.  [main] then writes the table
    without rows and prints the count 0 when the write returns, and ends
    with the exception of the write when it raises. *)
Theorem ignored_root_gives_empty_index (ROOT : path)
  (write_text : path -> str -> result unit) (tree : list file) :
  should_skip ROOT = true ->
  let dest := ROOT ++ [chars "docs"; chars "TYPE_INDEX.md"] in
  let skeleton := chars "# Type Index

This file lists every `struct` and `enum` defined in the repository.

| Type | Kind | Location |
| --- | --- | --- |

Generated automatically to support DRY efforts.

Run `python docs/generate_type_index.py` to regenerate.
" in
  scan_files (walk ROOT tree) ([], []) = Ok ([], [])
  /\ collect_types ROOT tree = ([], Ok [])
  /\ (write_text dest skeleton = Ok tt ->
      main ROOT write_text tree
      = ([WriteText dest skeleton;
          Stdout (chars "Wrote docs/TYPE_INDEX.md with 0 entries.")], Ok tt))
  /\ (forall e, write_text dest skeleton = Raise e ->
      main ROOT write_text tree = ([WriteFailed dest skeleton], Raise e)).
Proof.
  intros H dest skeleton.
  assert (Hs : scan_files (walk ROOT tree) ([], []) = Ok ([], [])).
  { apply scan_files_all_skipped. intros f Hf.
    apply walk_in in Hf as (g & _ & _ & ->). simpl.
    now rewrite should_skip_app, H. }
  split; [assumption|].
  rewrite (main_after_scan _ _ _ _ Hs), (collect_types_after_scan _ _ _ Hs).
  change (has_duplicate (fst ([], []))) with false. cbv iota.
  change (sort_by d_name str_ltb (fst ([], []))) with (@nil decl).
  change (document ROOT []) with skeleton.
  change (ROOT ++ report_path) with dest.
  split; [reflexivity|].
  split; [intro Hw | intros e Hw]; rewrite Hw; reflexivity.
Qed.

Lemma ignored_root_gives_empty_index_witness :
  collect_types [chars "/"; chars "builds"; chars "target"; chars "repo"]
    [File [chars "a.rs"] (Ok (chars "struct Twice;
struct Twice;"));
     File [chars "b.rs"] (Raise (OSError (chars "Permission denied")))]
  = ([], Ok [])
  /\ main [chars "/"; chars "builds"; chars "target"; chars "repo"] writable
       [File [chars "a.rs"] (Ok (chars "struct Twice;
struct Twice;"));
        File [chars "b.rs"] (Raise (OSError (chars "Permission denied")))]
     = ([WriteText [chars "/"; chars "builds"; chars "target"; chars "repo";
                    chars "docs"; chars "TYPE_INDEX.md"]
           (chars "# Type Index

This file lists every `struct` and `enum` defined in the repository.

| Type | Kind | Location |
| --- | --- | --- |

Generated automatically to support DRY efforts.

Run `python docs/generate_type_index.py` to regenerate.
");
         Stdout (chars "Wrote docs/TYPE_INDEX.md with 0 entries.")], Ok tt).
Proof.
  split.
  - refine (proj1 (proj2 (ignored_root_gives_empty_index
      [chars "/"; chars "builds"; chars "target"; chars "repo"] writable
      [File [chars "a.rs"] (Ok (chars "struct Twice;
struct Twice;"));
       File [chars "b.rs"] (Raise (OSError (chars "Permission denied")))]
      _))).
    reflexivity.
  - refine (proj1 (proj2 (proj2 (ignored_root_gives_empty_index
      [chars "/"; chars "builds"; chars "target"; chars "repo"] writable
      [File [chars "a.rs"] (Ok (chars "struct Twice;
struct Twice;"));
       File [chars "b.rs"] (Raise (OSError (chars "Permission denied")))]
      _))) _); reflexivity.
Defined.

(** ** The validator: what is returned and what is reported *)

(** X8: when [collect_types] returns, it has printed nothing, no two
    of the records it returns have one name, the records ascend strictly
    by name, they are the records of the scan reordered, and
    [render_table] renders them without an exception. *)
Theorem collect_types_returns_distinct_sorted (ROOT : path)
  (tree : list file) (tr : list event) (types : list decl) :
  collect_types ROOT tree = (tr, Ok types) ->
  tr = []
  /\ NoDup (map d_name types)
  /\ StronglySorted name_lt types
  /\ (exists st, scan_files (walk ROOT tree) ([], []) = Ok st
                 /\ Permutation types (fst st))
  /\ render_table ROOT types = Ok (document ROOT types).
Proof.
  rewrite collect_types_spec.
  destruct (first_error (walk ROOT tree)) eqn:E; [discriminate|].
  cbv zeta. destruct (has_duplicate _) eqn:Hd; [discriminate|].
  intro H; inversion H; subst; clear H.
  apply has_duplicate_NoDup in Hd.
  split; [reflexivity|]. split; [|split; [|split]].
  - apply (Permutation_NoDup (l := map d_name (records_of (walk ROOT tree))));
      [|assumption].
    apply Permutation_map, Permutation_sym, sort_names_perm.
  - now apply sort_names_sorted.
  - eexists. rewrite scan_files_spec, E. split; [reflexivity|].
    apply sort_names_perm.
  - apply render_table_spec.
    apply (Permutation_Forall (Permutation_sym (sort_names_perm _))).
    apply records_under_root.
Qed.

Lemma collect_types_returns_distinct_sorted_witness :
  render_table [chars "/"; chars "repo"]
    [Decl (chars "A") (chars "enum") [chars "/"; chars "repo"; chars "z.rs"] 2;
     Decl (chars "B") (chars "struct")
          [chars "/"; chars "repo"; chars "z.rs"] 1]
  = Ok (document [chars "/"; chars "repo"]
    [Decl (chars "A") (chars "enum") [chars "/"; chars "repo"; chars "z.rs"] 2;
     Decl (chars "B") (chars "struct")
          [chars "/"; chars "repo"; chars "z.rs"] 1]).
Proof.
  refine (proj2 (proj2 (proj2 (proj2
    (collect_types_returns_distinct_sorted [chars "/"; chars "repo"]
       [File [chars "z.rs"] (Ok (chars "struct B;
enum A {}"))] [] _ _))))).
  reflexivity.
Defined.

Lemma filter_none {A} (l : list A) : filter (fun _ => false) l = [].
Proof. induction l; simpl; auto. Qed.

Lemma filter_or_perm {A} (f g : A -> bool) (l : list A) :
  (forall x, f x = true -> g x = true -> False) ->
  Permutation (filter f l ++ filter g l) (filter (fun x => f x || g x) l).
Proof.
  intro H. induction l as [|x l IH]; simpl; [constructor|].
  destruct (f x) eqn:Ef, (g x) eqn:Eg; simpl.
  - destruct (H x Ef Eg).
  - now constructor.
  - symmetry. apply Permutation_cons_app. now symmetry.
  - assumption.
Qed.

(** The records of the names of a list without repetition, name by
    name, are the records whose name is in the list. *)
Lemma occurrences_by_name types ns :
  NoDup ns ->
  Permutation (flat_map (fun n => occurrences n types) ns)
    (filter (fun d => existsb (str_eqb (d_name d)) ns) types).
Proof.
  induction 1 as [|n ns Hn Hnd IH]; simpl.
  - now rewrite filter_none.
  - rewrite IH. unfold occurrences. apply filter_or_perm.
    intros d Hd Hin. apply str_eqb_eq in Hd.
    apply existsb_exists in Hin as (m & Hm & E).
    apply str_eqb_eq in E. congruence.
Qed.

Lemma flat_map_ext_on {A B} (f g : A -> list B) (l : list A) :
  (forall x, In x l -> f x = g x) -> flat_map f l = flat_map g l.
Proof.
  induction l as [|x l IH]; intro H; simpl; [reflexivity|].
  rewrite (H x (or_introl eq_refl)), IH; [reflexivity|].
  intros; apply H; now right.
Qed.

Lemma duplicate_report_perm ROOT types :
  Permutation (duplicate_report ROOT types)
    (map (fun d => duplicate_line (d_name d) (below ROOT (d_path d))
                     (d_line d))
         (filter (is_duplicated types) types)).
Proof.
  unfold duplicate_report.
  set (ns := filter (fun n => 1 <? List.length (occurrences n types))
               (first_seen (map d_name types))).
  rewrite (flat_map_ext_on _
             (fun n => map (fun d => duplicate_line (d_name d)
                                       (below ROOT (d_path d)) (d_line d))
                           (occurrences n types))).
  - rewrite flat_map_map_out. apply Permutation_map.
    rewrite occurrences_by_name
      by (apply NoDup_filter, first_seen_NoDup).
    erewrite filter_ext_in; [reflexivity|].
    intros d Hd. unfold is_duplicated.
    destruct (1 <? List.length (occurrences (d_name d) types)) eqn:El.
    + apply existsb_exists. exists (d_name d).
      split; [|apply str_eqb_refl].
      apply filter_In. split; [|assumption].
      apply first_seen_in. now apply in_map.
    + destruct (existsb _ ns) eqn:Ee; [|reflexivity].
      apply existsb_exists in Ee as (n & Hn & En).
      apply str_eqb_eq in En; subst n.
      apply filter_In in Hn as [_ Hn]. congruence.
  - intros n _. apply map_ext_in. intros d Hd.
    apply occurrences_in in Hd as [_ ->]. reflexivity.
Qed.

Lemma filter_length_le {A} (f g : A -> bool) (l : list A) :
  (forall x, f x = true -> g x = true) ->
  List.length (filter f l) <= List.length (filter g l).
Proof.
  intro H. induction l as [|x l IH]; simpl; [lia|].
  destruct (f x) eqn:Ef.
  - rewrite (H x Ef). simpl. lia.
  - destruct (g x); simpl; lia.
Qed.

Lemma duplicated_at_least_two types :
  has_duplicate types = true ->
  2 <= List.length (filter (is_duplicated types) types).
Proof.
  unfold has_duplicate. intro H.
  apply existsb_exists in H as (d & _ & Hd). apply Nat.ltb_lt in Hd.
  assert (Hle : List.length (occurrences (d_name d) types)
                <= List.length (filter (is_duplicated types) types)).
  { apply filter_length_le. intros x Hx. apply str_eqb_eq in Hx.
    unfold is_duplicated. rewrite Hx. now apply Nat.ltb_lt. }
  lia.
Qed.

(** X9: when the scan ends with duplicates, the diagnostics are the
    heading and then, in some order, exactly one line for each record
    whose name is declared twice or more: no such record is left out or
    reported twice, no record with a name of its own is reported, and
    there are at least two lines under the heading. *)
Theorem every_duplicate_is_reported_once (ROOT : path)
  (write_text : path -> str -> result unit) (tree : list file)
  (st : scan_state) :
  scan_files (walk ROOT tree) ([], []) = Ok st ->
  has_duplicate (fst st) = true ->
  exists lines,
    diagnostics (main ROOT write_text tree)
    = chars "Duplicate type definitions found:" :: lines
    /\ Permutation lines
         (map (fun d => chars "  " ++ d_name d ++ chars ": "
                        ++ as_posix (below ROOT (d_path d))
                        ++ chars "#L" ++ str_of_nat (d_line d))
              (filter (is_duplicated (fst st)) (fst st)))
    /\ 2 <= List.length lines.
Proof.
  intros H Hd. exists (duplicate_report ROOT (fst st)).
  rewrite (main_after_scan _ _ _ _ H), Hd.
  pose proof (duplicate_report_perm ROOT (fst st)) as Hp.
  split; [|split].
  - rewrite <- (app_nil_r (map Stderr _)), diagnostics_stderr.
    unfold diagnostics; simpl. now rewrite app_nil_r.
  - exact Hp.
  - rewrite (Permutation_length Hp), length_map.
    now apply duplicated_at_least_two.
Qed.

Lemma every_duplicate_is_reported_once_witness :
  exists lines,
    diagnostics (main [chars "/"; chars "repo"] writable
      [File [chars "a.rs"] (Ok (chars "struct One;
enum Two {}
enum One {}"))])
    = chars "Duplicate type definitions found:" :: lines
    /\ Permutation lines
         [chars "  One: a.rs#L1"; chars "  One: a.rs#L3"]
    /\ 2 <= List.length lines.
Proof.
  exact (every_duplicate_is_reported_once [chars "/"; chars "repo"]
    writable
    [File [chars "a.rs"] (Ok (chars "struct One;
enum Two {}
enum One {}"))] _ eq_refl eq_refl).
Defined.

(** ** The renderer *)

Lemma relative_to_Ok p root rel :
  relative_to p root = Ok rel <-> p = root ++ rel.
Proof.
  revert p; induction root as [|r root IH]; intros [|a p]; simpl.
  - split; intro H; inversion H; reflexivity.
  - split; intro H; inversion H; reflexivity.
  - split; discriminate.
  - destruct (str_eqb r a) eqn:E.
    + apply str_eqb_eq in E; subst. rewrite IH.
      split; intro H; [now subst|now inversion H].
    + split; [discriminate|]. intro H; inversion H; subst.
      now rewrite str_eqb_refl in E.
Qed.

Lemma relative_to_Raise p root e :
  relative_to p root = Raise e -> e = ValueError.
Proof.
  revert p; induction root as [|r root IH]; intros [|a p]; simpl;
    try discriminate; try (intro H; now inversion H).
  destruct (str_eqb r a); [apply IH|]. intro H; now inversion H.
Qed.

Lemma render_rows_Ok ROOT types lines out :
  render_rows ROOT types lines = Ok out -> Forall (under_root ROOT) types.
Proof.
  revert lines; induction types as [|d types IH]; intro lines; simpl;
    [constructor|].
  destruct (relative_to (d_path d) ROOT) as [rel|e] eqn:E; [|discriminate].
  intro H. constructor; [|now apply IH in H].
  exists rel. now apply relative_to_Ok.
Qed.

Lemma render_rows_Raise ROOT types lines e :
  render_rows ROOT types lines = Raise e -> e = ValueError.
Proof.
  revert lines; induction types as [|d types IH]; intro lines; simpl;
    [discriminate|].
  destruct (relative_to (d_path d) ROOT) as [rel|e'] eqn:E; [apply IH|].
  intro H; inversion H; subst. now apply relative_to_Raise in E.
Qed.

(** X10: [render_table] renders the records in the order in which it
    is given them, without sorting, and it needs every path to lie below
    the root: then it returns the head, one row for each record and the
    foot, joined by line feeds; when the path of some record is not below
    the root it raises [ValueError] and returns no text. *)
Theorem render_table_needs_paths_below_root (ROOT : path)
  (types : list decl) :
  (Forall (under_root ROOT) types ->
   render_table ROOT types
   = Ok (join newline (table_head ++ map (row_of ROOT) types ++ table_foot)))
  /\ (forall doc, render_table ROOT types = Ok doc ->
                  Forall (under_root ROOT) types)
  /\ (Exists (fun d => ~ under_root ROOT d) types ->
      render_table ROOT types = Raise ValueError).
Proof.
  split; [apply render_table_spec|]. split.
  - intros doc. unfold render_table.
    destruct (render_rows ROOT types table_head) as [out|e] eqn:E;
      [|discriminate].
    intros _. now apply render_rows_Ok in E.
  - intro H. unfold render_table.
    destruct (render_rows ROOT types table_head) as [out|e] eqn:E.
    + apply render_rows_Ok in E. apply Exists_exists in H as (d & Hd & Hn).
      destruct Hn. now apply (proj1 (Forall_forall _ _) E).
    + now apply render_rows_Raise in E as ->.
Qed.

Lemma render_table_needs_paths_below_root_witness :
  render_table [chars "/"; chars "repo"]
    [Decl (chars "Far") (chars "struct")
          [chars "/"; chars "tmp"; chars "f.rs"] 1]
  = Raise ValueError.
Proof.
  refine (proj2 (proj2 (render_table_needs_paths_below_root
    [chars "/"; chars "repo"]
    [Decl (chars "Far") (chars "struct")
          [chars "/"; chars "tmp"; chars "f.rs"] 1])) _).
  apply Exists_cons_hd. intros [rel H]. discriminate H.
Defined.

Lemma splitlines_from_line cur l rest :
  no_linebreak l = true ->
  splitlines_from cur (l ++ newline ++ rest)
  = (rev cur ++ l) :: splitlines_from [] rest.
Proof.
  revert cur; induction l as [|c l IH]; intros cur H; simpl in *.
  - rewrite app_nil_r. now destruct rest.
  - apply andb_prop in H as [Hc H]. apply negb_true_iff in Hc.
    rewrite Hc, IH by assumption. simpl. now rewrite <- app_assoc.
Qed.

Lemma forallb_map_comp {A B} (f : B -> bool) (g : A -> B) (l : list A) :
  forallb f (map g l) = forallb (fun x => f (g x)) l.
Proof. induction l as [|x l IH]; simpl; congruence. Qed.

Lemma splitlines_join ls :
  forallb no_linebreak ls = true ->
  splitlines (join newline (ls ++ [[]])) = ls.
Proof.
  unfold splitlines. induction ls as [|l ls IH]; intro H; [reflexivity|].
  simpl in H. apply andb_prop in H as [Hl H].
  change ((l :: ls) ++ [[]]) with (l :: (ls ++ [[]])).
  rewrite join_cons by (destruct ls; discriminate).
  rewrite splitlines_from_line by assumption.
  simpl. now rewrite IH.
Qed.

Lemma no_linebreak_app a b :
  no_linebreak (a ++ b) = no_linebreak a && no_linebreak b.
Proof. apply forallb_app. Qed.

Lemma isident_no_linebreak c : isident c = true -> is_linebreak c = false.
Proof.
  destruct c as [[] [] [] [] [] [] [] []]; vm_compute; intro H;
    try discriminate H; reflexivity.
Qed.

Lemma isupper_isident c : isupper c = true -> isident c = true.
Proof.
  destruct c as [[] [] [] [] [] [] [] []]; vm_compute; intro H;
    try discriminate H; reflexivity.
Qed.

Lemma identifier_no_linebreak t :
  forallb isident t = true -> no_linebreak t = true.
Proof.
  induction t as [|c t IH]; simpl; [reflexivity|].
  intro H. apply andb_prop in H as [Hc H].
  now rewrite (isident_no_linebreak c Hc), IH.
Qed.

Lemma digits_no_linebreak u :
  no_linebreak (chars (NilEmpty.string_of_uint u)) = true.
Proof. induction u; simpl; auto. Qed.

Lemma join_no_linebreak sep l :
  no_linebreak sep = true -> forallb no_linebreak l = true ->
  no_linebreak (join sep l) = true.
Proof.
  intro Hs. induction l as [|x l IH]; simpl; [reflexivity|].
  intro H. apply andb_prop in H as [Hx H].
  destruct l as [|y l]; [assumption|].
  rewrite !no_linebreak_app, Hx, Hs. simpl. now apply IH.
Qed.

Lemma as_posix_no_linebreak p :
  forallb no_linebreak p = true -> no_linebreak (as_posix p) = true.
Proof.
  destruct p as [|x p]; [reflexivity|]. intro H.
  now apply join_no_linebreak.
Qed.

Lemma row_no_linebreak name kind rel n :
  no_linebreak name = true -> no_linebreak kind = true ->
  no_linebreak rel = true ->
  no_linebreak (row name kind rel n) = true.
Proof.
  intros Hname Hkind Hrel. unfold row.
  rewrite !no_linebreak_app, Hname, Hkind, Hrel.
  unfold str_of_nat. rewrite digits_no_linebreak. reflexivity.
Qed.

Lemma forallb_skipn {A} (f : A -> bool) n (l : list A) :
  forallb f l = true -> forallb f (skipn n l) = true.
Proof.
  revert l; induction n as [|n IH]; intros [|x l]; simpl; auto.
  intro H. apply andb_prop in H as [_ H]. now apply IH.
Qed.

(** The lines of the document when no row holds a line boundary, and
    the text as its lines, each ended by a line feed. *)
Lemma document_lines ROOT types :
  forallb (fun d => no_linebreak (row_of ROOT d)) types = true ->
  splitlines (document ROOT types)
  = table_head ++ map (row_of ROOT) types ++ removelast table_foot.
Proof.
  intro H. unfold document.
  replace (table_head ++ map (row_of ROOT) types ++ table_foot)
    with ((table_head ++ map (row_of ROOT) types
           ++ removelast table_foot) ++ [[]])
    by now rewrite <- !app_assoc.
  apply splitlines_join.
  rewrite !forallb_app. rewrite forallb_map_comp, H. reflexivity.
Qed.

Lemma document_by_lines ROOT types :
  document ROOT types
  = flat_map (fun l => l ++ newline)
      (table_head ++ map (row_of ROOT) types ++ removelast table_foot).
Proof.
  unfold document.
  replace (table_head ++ map (row_of ROOT) types ++ table_foot)
    with ((table_head ++ map (row_of ROOT) types
           ++ removelast table_foot) ++ [[]])
    by now rewrite <- !app_assoc.
  rewrite join_lines by discriminate. simpl join. now rewrite app_nil_r.
Qed.

(** X11: read back line by line, the text that [render_table] returns
    is the head, the rows and the foot, one line each.  For records with
    paths below the root whose names, kinds and path parts hold no line
    boundary, [render_table] returns a text whose [splitlines] is the six
    lines of the head, the row of each record in the order given and the
    four lines of the foot, so ten lines and one for each record; and the
    text is these lines, each ended by one line feed, so it ends with a
    line feed after the instruction to regenerate. *)
Theorem document_reads_back_line_by_line (ROOT : path) (types : list decl) :
  Forall (under_root ROOT) types ->
  (forall d, In d types ->
     no_linebreak (d_name d) = true /\ no_linebreak (d_kind d) = true
     /\ forallb no_linebreak (d_path d) = true) ->
  exists doc,
    render_table ROOT types = Ok doc
    /\ splitlines doc
       = [chars "# Type Index";
          [];
          chars "This file lists every `struct` and `enum` defined in the repository.";
          [];
          chars "| Type | Kind | Location |";
          chars "| --- | --- | --- |"]
         ++ map (fun d => chars "| " ++ d_name d ++ chars " | " ++ d_kind d
                          ++ chars " | `"
                          ++ as_posix (below ROOT (d_path d))
                          ++ chars "#L" ++ str_of_nat (d_line d)
                          ++ chars "` |") types
         ++ [[];
             chars "Generated automatically to support DRY efforts.";
             [];
             chars "Run `python docs/generate_type_index.py` to regenerate."]
    /\ List.length (splitlines doc) = 10 + List.length types
    /\ doc = flat_map (fun l => l ++ ["010"%char]) (splitlines doc).
Proof.
  intros Hu Hf. exists (document ROOT types).
  assert (Hs : splitlines (document ROOT types)
               = table_head ++ map (row_of ROOT) types
                 ++ removelast table_foot).
  { apply document_lines. apply forallb_forall. intros d Hd.
    destruct (Hf d Hd) as (Hn & Hk & Hp).
    apply row_no_linebreak; try assumption.
    apply as_posix_no_linebreak. now apply forallb_skipn. }
  split; [now apply render_table_spec|]. split; [exact Hs|]. split.
  - rewrite Hs, !length_app, length_map. simpl. lia.
  - rewrite Hs. apply document_by_lines.
Qed.

Lemma document_reads_back_line_by_line_witness :
  exists doc,
    render_table [chars "/"; chars "repo"]
      [Decl (chars "B") (chars "struct")
            [chars "/"; chars "repo"; chars "z.rs"] 10;
       Decl (chars "A") (chars "enum")
            [chars "/"; chars "repo"; chars "src"; chars "y.rs"] 2]
    = Ok doc
    /\ splitlines doc
       = [chars "# Type Index";
          [];
          chars "This file lists every `struct` and `enum` defined in the repository.";
          [];
          chars "| Type | Kind | Location |";
          chars "| --- | --- | --- |";
          chars "| B | struct | `z.rs#L10` |";
          chars "| A | enum | `src/y.rs#L2` |";
          [];
          chars "Generated automatically to support DRY efforts.";
          [];
          chars "Run `python docs/generate_type_index.py` to regenerate."]
    /\ List.length (splitlines doc) = 12
    /\ doc = flat_map (fun l => l ++ ["010"%char]) (splitlines doc).
Proof.
  refine (document_reads_back_line_by_line [chars "/"; chars "repo"]
    [Decl (chars "B") (chars "struct")
          [chars "/"; chars "repo"; chars "z.rs"] 10;
     Decl (chars "A") (chars "enum")
          [chars "/"; chars "repo"; chars "src"; chars "y.rs"] 2] _ _).
  - repeat constructor.
    + now exists [chars "z.rs"].
    + now exists [chars "src"; chars "y.rs"].
  - intros d [<-|[<-|[]]]; repeat split.
Defined.

(** ** The whole run *)



(** ** The visibility is not recorded *)

Lemma bind_map_out {A B C} (F : B * str -> C * str) (m : matcher A)
  (k : A -> matcher C) (k' : A -> matcher B) s :
  (forall a r, k a r = map F (k' a r)) ->
  bind m k s = map F (bind m k' s).
Proof.
  intro H. unfold bind. rewrite <- flat_map_map_out.
  apply flat_map_ext. intros [a r]. apply H.
Qed.

Lemma after_visibility_group1 g1 s :
  after_visibility g1 s = map (with_group1 g1) (after_visibility None s).
Proof.
  unfold after_visibility.
  apply bind_map_out; intros g2 r2.
  apply bind_map_out; intros ws r3.
  apply bind_map_out; intros c r4.
  apply bind_map_out; intros t r5.
  reflexivity.
Qed.

Lemma PATTERN_keyword kind r :
  is_keyword kind -> PATTERN (kind ++ r) = after_visibility None (kind ++ r).
Proof.
  intro Hk. unfold PATTERN.
  rewrite (bind_star_commit isspace _ [] (kind ++ r));
    [| reflexivity | now apply keyword_stops |].
  - rewrite bind_opt. rewrite bind_nil; [reflexivity|].
    destruct Hk as [-> | ->]; reflexivity.
  - intros _ a r' Ha.
    apply isspace_excludes in Ha as (_ & Hp & Hs & He & _).
    rewrite bind_opt. rewrite bind_nil by now apply visibility_fails.
    now apply keyword_fails.
Qed.

Lemma PATTERN_visibility vis kind r :
  is_visibility vis -> is_keyword kind ->
  PATTERN (vis ++ kind ++ r) = after_visibility (Some vis) (kind ++ r).
Proof.
  intros Hv Hk. unfold PATTERN.
  rewrite (bind_star_commit isspace _ [] (vis ++ kind ++ r)); [|reflexivity| |].
  - rewrite bind_opt.
    rewrite bind_visibility; [| assumption | now apply keyword_stops |].
    + destruct Hv as (sc & ws1 & -> & _). simpl.
      rewrite keyword_fails; [apply app_nil_r | reflexivity | reflexivity].
    + intros v' a r' Ha.
      apply isspace_excludes in Ha as (_ & _ & Hs & He & _).
      now apply keyword_fails.
  - destruct Hv as (sc & ws1 & -> & _). reflexivity.
  - intros _ a r' Ha.
    apply isspace_excludes in Ha as (_ & Hp & Hs & He & _).
    rewrite bind_opt. rewrite bind_nil by now apply visibility_fails.
    now apply keyword_fails.
Qed.

(** X14: the visibility is matched and then forgotten: a line with a
    visibility qualifier in front of [struct] or [enum] gives the record
    that the line gives without the qualifier, so public and private
    types are indexed alike, and a public and a private type of one name
    are duplicates. *)
Theorem visibility_is_not_recorded (p : path) (idx : nat)
  (ws vis kind r : str) :
  forallb isspace ws = true -> is_visibility vis -> is_keyword kind ->
  scan_line p idx (ws ++ vis ++ kind ++ r)
  = scan_line p idx (ws ++ kind ++ r).
Proof.
  intros Hws Hv Hk. unfold scan_line, lstrip, PATTERN_match.
  rewrite (dropWhile_all_app isspace ws (vis ++ kind ++ r) Hws).
  rewrite (dropWhile_all_app isspace ws (kind ++ r) Hws).
  rewrite (PATTERN_indent ws (vis ++ kind ++ r) Hws).
  rewrite (PATTERN_indent ws (kind ++ r) Hws).
  rewrite (PATTERN_visibility vis kind r Hv Hk), (PATTERN_keyword kind r Hk).
  rewrite after_visibility_group1.
  assert (E1 : startswith (dropWhile isspace (vis ++ kind ++ r)) (chars "//")
               || startswith (dropWhile isspace (vis ++ kind ++ r))
                    (chars "/*") = false).
  { destruct Hv as (sc & ws1 & -> & _). reflexivity. }
  assert (E2 : startswith (dropWhile isspace (kind ++ r)) (chars "//")
               || startswith (dropWhile isspace (kind ++ r)) (chars "/*")
               = false).
  { destruct Hk as [-> | ->]; reflexivity. }
  rewrite E1, E2.
  destruct (after_visibility None (kind ++ r)) as [|[g r'] l]; reflexivity.
Qed.

Lemma visibility_is_not_recorded_witness :
  scan_line [chars "m.rs"] 5 (chars "  pub(in crate::a) struct Cfg<T>;")
  = scan_line [chars "m.rs"] 5 (chars "  struct Cfg<T>;").
Proof.
  apply (visibility_is_not_recorded [chars "m.rs"] 5 (chars "  ")
           (chars "pub(in crate::a) ") (chars "struct") (chars " Cfg<T>;")).
  - reflexivity.
  - exists (chars "(in crate::a)"), (chars " ").
    repeat split; auto; try discriminate.
    right. exists (chars "in crate::a"). split; reflexivity.
  - now left.
Defined.

(** ** The lines of the written document *)

(** The row of a record of the scan holds no line boundary when the
    path of its file holds none. *)
Lemma scanned_row_no_linebreak ROOT tree d :
  (forall f, In f tree -> forallb no_linebreak (f_path f) = true) ->
  In d (records_of (walk ROOT tree)) ->
  no_linebreak (row_of ROOT d) = true.
Proof.
  intros Hp Hd.
  apply records_of_iff in Hd as (f & text & Hf & Hs & Hr & Hd).
  apply walk_in in Hf as (g & Hg & Hrs & ->). simpl in *.
  apply file_records_iff in Hd as (k & line & Hk & Hl & Hsc).
  pose proof (scan_line_loc _ _ _ _ Hsc) as [Hpath _].
  apply scan_line_Some in Hsc as (_ & _ & m & Hm & ->).
  apply PATTERN_match_Some in Hm
    as (rest & ws & vis & ws2 & c & t & _ & Hn & _ & _ & Hkind & _ & _
        & Hc & Ht).
  simpl in Hn, Hkind.
  unfold row_of; cbn [d_name d_kind d_path d_line].
  rewrite below_app, Hn. apply row_no_linebreak.
  - apply identifier_no_linebreak. simpl.
    now rewrite (isupper_isident c Hc).
  - destruct Hkind as [-> | ->]; reflexivity.
  - apply as_posix_no_linebreak. now apply Hp.
Qed.

(** X15: the document of a run has one line for each record of the
    scan and ten lines besides.  When the scan ends without duplicates
    and no part of a path of the tree holds a line boundary,
    [render_table] returns for the sorted records a text that, read back
    line by line, is the six lines of the head, the row of each record in
    the order of the names and the four lines of the foot.  When the write
    of that text to [docs/TYPE_INDEX.md] returns, the trace of [main] is
    that write and the summary whose count is the number of records;
    when it raises, [main] ends with its exception and prints no
    summary. *)
Theorem written_document_has_a_line_per_record (ROOT : path)
  (write_text : path -> str -> result unit) (tree : list file)
  (st : scan_state) :
  scan_files (walk ROOT tree) ([], []) = Ok st ->
  has_duplicate (fst st) = false ->
  (forall f, In f tree -> forallb no_linebreak (f_path f) = true) ->
  let sorted := sort_by d_name str_ltb (fst st) in
  let dest := ROOT ++ [chars "docs"; chars "TYPE_INDEX.md"] in
  exists doc,
    render_table ROOT sorted = Ok doc
    /\ splitlines doc
       = [chars "# Type Index";
          [];
          chars "This file lists every `struct` and `enum` defined in the repository.";
          [];
          chars "| Type | Kind | Location |";
          chars "| --- | --- | --- |"]
         ++ map (fun d => chars "| " ++ d_name d ++ chars " | " ++ d_kind d
                          ++ chars " | `"
                          ++ as_posix (below ROOT (d_path d))
                          ++ chars "#L" ++ str_of_nat (d_line d)
                          ++ chars "` |") sorted
         ++ [[];
             chars "Generated automatically to support DRY efforts.";
             [];
             chars "Run `python docs/generate_type_index.py` to regenerate."]
    /\ List.length (splitlines doc) = 10 + List.length (fst st)
    /\ (write_text dest doc = Ok tt ->
        main ROOT write_text tree
        = ([WriteText dest doc;
            Stdout (chars "Wrote docs/TYPE_INDEX.md with "
                    ++ str_of_nat (List.length (fst st))
                    ++ chars " entries.")], Ok tt))
    /\ (forall e, write_text dest doc = Raise e ->
        main ROOT write_text tree = ([WriteFailed dest doc], Raise e)).
Proof.
  intros H Hd Hp sorted dest.
  pose proof (main_after_scan ROOT write_text tree st H) as Hm.
  rewrite Hd in Hm. fold sorted in Hm.
  change (ROOT ++ report_path) with dest in Hm.
  pose proof (scan_records _ _ _ H) as [_ Hr].
  assert (Hperm : Permutation sorted (fst st)) by apply sort_names_perm.
  assert (Hlen : List.length sorted = List.length (fst st))
    by now apply Permutation_length.
  assert (Hs : splitlines (document ROOT sorted)
               = table_head ++ map (row_of ROOT) sorted
                 ++ removelast table_foot).
  { apply document_lines. apply forallb_forall. intros d Hin.
    apply (scanned_row_no_linebreak ROOT tree); [assumption|].
    rewrite <- Hr. now apply (Permutation_in d Hperm). }
  exists (document ROOT sorted).
  split; [|split; [exact Hs|split; [|split]]].
  - apply render_table_spec.
    apply (Permutation_Forall (Permutation_sym Hperm)).
    rewrite Hr. apply records_under_root.
  - rewrite Hs, !length_app, length_map, Hlen. simpl. lia.
  - intro Hw. rewrite Hm, Hw, summary_text, Hlen. reflexivity.
  - intros e Hw. now rewrite Hm, Hw.
Qed.

Lemma written_document_has_a_line_per_record_witness :
  exists doc,
    render_table [chars "/"; chars "repo"]
      [Decl (chars "A") (chars "struct")
            [chars "/"; chars "repo"; chars "src"; chars "lib.rs"] 1;
       Decl (chars "B") (chars "enum")
            [chars "/"; chars "repo"; chars "src"; chars "lib.rs"] 2]
    = Ok doc
    /\ splitlines doc
       = [chars "# Type Index";
          [];
          chars "This file lists every `struct` and `enum` defined in the repository.";
          [];
          chars "| Type | Kind | Location |";
          chars "| --- | --- | --- |";
          chars "| A | struct | `src/lib.rs#L1` |";
          chars "| B | enum | `src/lib.rs#L2` |";
          [];
          chars "Generated automatically to support DRY efforts.";
          [];
          chars "Run `python docs/generate_type_index.py` to regenerate."]
    /\ List.length (splitlines doc) = 12
    /\ (writable
          [chars "/"; chars "repo"; chars "docs"; chars "TYPE_INDEX.md"] doc
        = Ok tt ->
        main [chars "/"; chars "repo"] writable
          [File [chars "src"; chars "lib.rs"] (Ok (chars "pub struct A;
enum B {}"))]
        = ([WriteText
              [chars "/"; chars "repo"; chars "docs"; chars "TYPE_INDEX.md"]
              doc;
            Stdout (chars "Wrote docs/TYPE_INDEX.md with 2 entries.")],
           Ok tt))
    /\ (forall e,
          writable
            [chars "/"; chars "repo"; chars "docs"; chars "TYPE_INDEX.md"]
            doc
          = Raise e ->
          main [chars "/"; chars "repo"] writable
            [File [chars "src"; chars "lib.rs"] (Ok (chars "pub struct A;
enum B {}"))]
          = ([WriteFailed
                [chars "/"; chars "repo"; chars "docs";
                 chars "TYPE_INDEX.md"] doc], Raise e)).
Proof.
  refine (written_document_has_a_line_per_record [chars "/"; chars "repo"]
    writable
    [File [chars "src"; chars "lib.rs"] (Ok (chars "pub struct A;
enum B {}"))] _ eq_refl eq_refl _).
  intros f [<-|[]]. reflexivity.
Defined.
